(** * py-detective: file classification, traversal and matching

    A shallow embedding of [finder.py], [grepper.py] and [detective.py].

    Python exceptions are modelled by the error monad [result]; the
    filesystem and the gzip library are an explicit environment [filesystem]
    whose fields are the system calls the code performs ([os.stat],
    [os.path.islink], [os.listdir], [open], [gzip.open]).  Paths and
    basenames are held as the bytes of their names ([string]); where the
    code compares names as [str] values, in [sorted], they are compared by
    the code points of their UTF-8 decoding with [surrogateescape], the
    filesystem encoding being UTF-8.  [os.path] is [posixpath], and a
    generator is modelled by the list of pairs it yields together with the
    way it stopped. *)

From Stdlib Require Import ZArith NArith List Ascii String Lia.
From Stdlib.Strings Require Import Byte.
From stdpp Require Import base option list gmap sets strings sorting.

Local Open Scope Z_scope.

(** ** Python values and exceptions *)

Abbreviation bytes := (list byte).

(** The exception classes the code can meet.  [BadGzipFile] is a subclass of
    [OSError]; [IOError] is an alias of [OSError]; every class below is a
    subclass of [Exception]. *)
Inductive exn : Set :=
  | OSError
  | BadGzipFile
  | EOFError
  | zlib_error
  | UnboundLocalError
  | KeyError
  | ValueError
  | Exception.

Definition is_OSError (e : exn) : bool :=
  match e with OSError | BadGzipFile => true | _ => false end.

Definition is_IOError : exn -> bool := is_OSError.

Definition is_Exception (e : exn) : bool := true.

Inductive result (A : Type) : Type :=
  | Ok (a : A)
  | Raise (e : exn).
Arguments Ok {A} a.
Arguments Raise {A} e.

Definition bind {A B} (r : result A) (k : A -> result B) : result B :=
  match r with
  | Ok a => k a
  | Raise e => Raise e
  end.

Notation "'let*' x ':=' r 'in' k" := (bind r (fun x => k))
  (at level 10, x name, r at level 100, k at level 200).

(** [try: body  except C: handler]. *)
Definition try_except {A} (body : result A) (C : exn -> bool)
    (handler : result A) : result A :=
  match body with
  | Ok a => Ok a
  | Raise e => if C e then handler else Raise e
  end.

(** ** Byte strings *)

Global Instance byte_eq_decision : EqDecision byte := Byte.byte_eq_dec.

Definition byte_eqb (a b : byte) : bool := N.eqb (Byte.to_N a) (Byte.to_N b).

Definition byte_in (b : byte) (l : bytes) : bool := existsb (byte_eqb b) l.

(** [range(a, b)] over non-negative integers. *)
Definition range (a b : N) : list N :=
  map N.of_nat (seq (N.to_nat a) (N.to_nat b - N.to_nat a)).

(** [bytes(ints)]; every integer used below is smaller than 256. *)
Definition ints2bytes (ints : list N) : bytes :=
  omap Byte.of_N ints.

(** [bs.translate(table, delete)]: the bytes of [delete] are removed, the
    others are mapped through the 256-entry [table]. *)
Definition translate (bs table delete : bytes) : bytes :=
  map (fun b => nth (N.to_nat (Byte.to_N b)) table b)
      (List.filter (fun b => negb (byte_in b delete)) bs).

(** [bool(bs)] of a bytes object. *)
Definition bool_of_bytes (bs : bytes) : bool :=
  match bs with
  | [] => false
  | _ :: _ => true
  end.

(** [f.read(n)] on a stream holding [data]: the first [n] bytes, everything
    when [n] is negative. *)
Definition read_n (n : Z) (data : bytes) : bytes :=
  if n <? 0 then data else take (Z.to_nat n) data.

(** ** File objects and the filesystem *)

(** An open binary file object: what [read(n)] returns or raises, and what
    mapping its descriptor ([mmap.mmap(f.fileno(), 0)]) gives. *)
Record fileobj : Type := {
  f_read : Z -> result bytes;
  f_mmap : result bytes;
}.

Record stat_result : Set := {
  st_mode : N;
  st_size : Z;
}.

(** [stat.S_ISREG], [stat.S_ISDIR]: the file-type bits of [st_mode] are
    [0o170000], a directory is [0o040000], a regular file [0o100000]. *)
Definition S_IFMT (mode : N) : N := N.land mode 0xF000.
Definition S_ISDIR (mode : N) : bool := N.eqb (S_IFMT mode) 0x4000.
Definition S_ISREG (mode : N) : bool := N.eqb (S_IFMT mode) 0x8000.

Record filesystem : Type := {
  os_stat : string -> result stat_result;
  os_path_islink : string -> bool;
  os_listdir : string -> result (list string);
  open_rb : string -> result fileobj;
  gzip_open : string -> result fileobj;
  gunzip : bytes -> result bytes;
}.

(** ** Python [str] methods *)

Module pystr.

(** [s[:n]] and [s[n:]] for a non-negative [n]. *)
Fixpoint take (n : nat) (s : string) : string :=
  match n, s with
  | O, _ => EmptyString
  | S _, EmptyString => EmptyString
  | S n', String a s' => String a (take n' s')
  end.

Fixpoint drop (n : nat) (s : string) : string :=
  match n, s with
  | O, _ => s
  | S _, EmptyString => EmptyString
  | S n', String _ s' => drop n' s'
  end.

(** [s[a:b]] for non-negative [a] and [b]. *)
Definition slice (a b : Z) (s : string) : string :=
  take (Z.to_nat (b - a)) (drop (Z.to_nat a) s).

(** [s.rfind(c)]: the index of the last [c], [-1] when there is none. *)
Fixpoint rfind (c : ascii) (s : string) : Z :=
  match s with
  | EmptyString => -1
  | String a s' =>
      let i := rfind c s' in
      if 0 <=? i then i + 1
      else if Ascii.eqb a c then 0 else -1
  end.

Definition startswith (s p : string) : bool := String.prefix p s.

Definition endswith (s suffix : string) : bool :=
  (String.length suffix <=? String.length s)%nat
  && String.eqb (drop (String.length s - String.length suffix) s) suffix.

(** [s.rstrip(c)]. *)
Fixpoint rstrip (c : ascii) (s : string) : string :=
  match s with
  | EmptyString => EmptyString
  | String a s' =>
      match rstrip c s' with
      | EmptyString => if Ascii.eqb a c then EmptyString else String a EmptyString
      | r => String a r
      end
  end.

(** [c * n]. *)
Fixpoint repeat (c : ascii) (n : nat) : string :=
  match n with
  | O => EmptyString
  | S n' => String c (repeat c n')
  end.

End pystr.

(** ** [os.path] on a POSIX system ([posixpath], [genericpath]) *)

Module posixpath.

Definition sep : ascii := "/"%char.
Definition extsep : ascii := "."%char.

(** [split(p)]: [(head, tail)] around the last separator. *)
Definition split (p : string) : string * string :=
  let i := pystr.rfind sep p + 1 in
  let head := pystr.slice 0 i p in
  let tail := pystr.drop (Z.to_nat i) p in
  let head :=
    if negb (String.eqb head "")
       && negb (String.eqb head (pystr.repeat sep (String.length head)))
    then pystr.rstrip sep head else head in
  (head, tail).

(** The loop of [genericpath._splitext] that skips leading dots: is there
    a character other than [extsep] in the scanned slice? *)
Fixpoint has_non_dot (s : string) : bool :=
  match s with
  | EmptyString => false
  | String a s' => if Ascii.eqb a extsep then has_non_dot s' else true
  end.

(** [splitext(p)]: [(root, ext)]. *)
Definition splitext (p : string) : string * string :=
  let sepIndex := pystr.rfind sep p in
  let dotIndex := pystr.rfind extsep p in
  if (sepIndex <? dotIndex)
     && has_non_dot (pystr.slice (sepIndex + 1) dotIndex p)
  then (pystr.slice 0 dotIndex p, pystr.drop (Z.to_nat dotIndex) p)
  else (p, EmptyString).

(** [join(a, b)]. *)
Definition join (a b : string) : string :=
  if pystr.startswith b "/" then b
  else if String.eqb a "" || pystr.endswith a "/" then a +:+ b
  else a +:+ "/" +:+ b.

(** [normcase] is the identity on POSIX. *)
Definition normcase (s : string) : string := s.

End posixpath.

(** ** Classification tags *)

Inductive kind : Set :=
  | skip | link | directory | text | binary | gzip | unreadable.

Global Instance kind_eq_dec : EqDecision kind.
Proof. solve_decision. Defined.

(** [kind in ('binary', 'text', 'gzip')]. *)
Definition matchable (k : kind) : bool :=
  match k with
  | binary | text | gzip => true
  | _ => false
  end.

(** ** finder.py *)

Definition TEXTCHARS : bytes :=
  ints2bytes ([7; 8; 9; 10; 12; 13; 27] ++ range 0x20 0x100)%N.
Definition ALLBYTES : bytes := ints2bytes (range 0 256).

(** Magic header bytes for gzip, [b'\037\213']. *)
Definition GZIP_MAGIC : bytes := [x1f; x8b].

(** How a generator stopped: it returned, an exception escaped from it, or
    the model ran out of recursion fuel. *)
Inductive status : Set :=
  | Done
  | Raised (e : exn)
  | OutOfFuel.

(** The pairs a generator yielded, in order, and how it stopped. *)
Definition walk : Type := list (string * kind) * status.

(** A [for] loop whose body yields: the bodies run in list order and the loop
    stops at the first one that does not complete. *)
Fixpoint for_yield {A} (body : A -> walk) (l : list A) : walk :=
  match l with
  | [] => ([], Done)
  | x :: l' =>
      match body x with
      | (out, Done) => let '(out', st) := for_yield body l' in (out ++ out', st)
      | (out, st) => (out, st)
      end
  end.

(** *** Names as Python [str]

    [os.listdir] hands out [str] names: the bytes of a directory entry
    decoded as UTF-8 with the [surrogateescape] error handler, so that a
    byte [b] that is not part of a well-formed sequence becomes the code
    point [0xDC00 + b].  Python compares [str] values code point by code
    point. *)

Definition byte_values (s : string) : list N :=
  map N_of_ascii (list_ascii_of_string s).

(** A continuation byte. *)
Definition is_cont (b : N) : bool := ((0x80 <=? b) && (b <=? 0xBF))%N.

(** The first two bytes of a well-formed three-byte sequence: no overlong
    form and no surrogate. *)
Definition lead3_ok (b0 b1 : N) : bool :=
  (((b0 =? 0xE0) && (0xA0 <=? b1) && (b1 <=? 0xBF))
   || ((0xE1 <=? b0) && (b0 <=? 0xEC) && is_cont b1)
   || ((b0 =? 0xED) && (0x80 <=? b1) && (b1 <=? 0x9F))
   || ((0xEE <=? b0) && (b0 <=? 0xEF) && is_cont b1))%N.

(** The first two bytes of a well-formed four-byte sequence: no overlong
    form and nothing above [U+10FFFF]. *)
Definition lead4_ok (b0 b1 : N) : bool :=
  (((b0 =? 0xF0) && (0x90 <=? b1) && (b1 <=? 0xBF))
   || ((0xF1 <=? b0) && (b0 <=? 0xF3) && is_cont b1)
   || ((b0 =? 0xF4) && (0x80 <=? b1) && (b1 <=? 0x8F)))%N.

(** [bs.decode('utf-8', 'surrogateescape')], as code points. *)
Fixpoint utf8_surrogateescape (bs : list N) : list N :=
  match bs with
  | [] => []
  | b0 :: r0 =>
      if (b0 <? 0x80)%N then b0 :: utf8_surrogateescape r0
      else
        let escaped := (0xDC00 + b0)%N :: utf8_surrogateescape r0 in
        match r0 with
        | [] => escaped
        | b1 :: r1 =>
            if ((0xC2 <=? b0) && (b0 <=? 0xDF))%N then
              if is_cont b1
              then ((b0 - 0xC0) * 64 + (b1 - 0x80))%N :: utf8_surrogateescape r1
              else escaped
            else
              match r1 with
              | [] => escaped
              | b2 :: r2 =>
                  if lead3_ok b0 b1 then
                    if is_cont b2
                    then ((b0 - 0xE0) * 4096 + (b1 - 0x80) * 64 + (b2 - 0x80))%N
                           :: utf8_surrogateescape r2
                    else escaped
                  else
                    match r2 with
                    | [] => escaped
                    | b3 :: r3 =>
                        if lead4_ok b0 b1 && is_cont b2 && is_cont b3
                        then ((b0 - 0xF0) * 262144 + (b1 - 0x80) * 4096
                              + (b2 - 0x80) * 64 + (b3 - 0x80))%N
                               :: utf8_surrogateescape r3
                        else escaped
                    end
              end
        end
  end.

(** [os.fsdecode] of the bytes of a name. *)
Definition fsdecode (s : string) : list N :=
  utf8_surrogateescape (byte_values s).

(** [l1 <= l2] on sequences of numbers, lexicographically. *)
Fixpoint lex_leb (l1 l2 : list N) : bool :=
  match l1, l2 with
  | [], _ => true
  | _ :: _, [] => false
  | x :: l1', y :: l2' =>
      if (x <? y)%N then true
      else if (x =? y)%N then lex_leb l1' l2'
      else false
  end.

(** [s <= t] on [str] values. *)
Definition str_le (s t : string) : Prop :=
  lex_leb (fsdecode s) (fsdecode t) = true.

Global Instance str_le_dec : RelDecision str_le :=
  fun s t => decide (lex_leb (fsdecode s) (fsdecode t) = true).

(** [sorted(basenames)] on [str] names. *)
Definition sorted (l : list string) : list string := merge_sort str_le l.

Module Finder.

Record t : Type := {
  skip_sub_dirs : bool;
  skip_hidden_dirs : bool;
  skip_hidden_files : bool;
  skip_dirs : gset string;
  skip_symlink_dirs : bool;
  skip_symlink_files : bool;
  binary_bytes : Z;
  skip_exts_simple : gset string;
  skip_exts_endswith : list string;
}.

(** The loop of [__init__] over [skip_exts]. *)
Definition partition_exts (skip_exts : gset string) : gset string * list string :=
  foldl (fun '(simple, endswith) ext =>
           if String.eqb (posixpath.splitext ("foo.bar" +:+ ext)).2 ext
           then ({[ ext ]} ∪ simple, endswith)
           else (simple, endswith ++ [ext]))
        (∅, []) (elements skip_exts).

Definition __init__ (skip_sub_dirs skip_hidden_dirs skip_hidden_files : bool)
    (skip_dirs skip_exts : gset string)
    (skip_symlink_dirs skip_symlink_files : bool) (binary_bytes : Z) : t :=
  {| skip_sub_dirs := skip_sub_dirs;
     skip_hidden_dirs := skip_hidden_dirs;
     skip_hidden_files := skip_hidden_files;
     skip_dirs := skip_dirs;
     skip_symlink_dirs := skip_symlink_dirs;
     skip_symlink_files := skip_symlink_files;
     binary_bytes := binary_bytes;
     skip_exts_simple := (partition_exts skip_exts).1;
     skip_exts_endswith := (partition_exts skip_exts).2 |}.

(** [Finder()] with the default arguments. *)
Definition default : t := __init__ true false false ∅ ∅ true true 4096.

Section methods.
Context (fs : filesystem) (self : t).

(** The local variable [bytes] is bound only when the read succeeds;
    [bytes.translate] on the unbound local raises [UnboundLocalError]. *)
Definition _is_binary_file (f : fileobj) : result bool :=
  let* bytes_local :=
    try_except (let* b := f_read f (binary_bytes self) in Ok (Some b))
               is_Exception (* is_binary = True *) (Ok None) in
  match bytes_local with
  | None => Raise UnboundLocalError
  | Some b =>
      let nontext := translate b ALLBYTES TEXTCHARS in
      Ok (bool_of_bytes nontext)
  end.

Definition _is_gzipped_text (filename : string) : result bool :=
  let* f := open_rb fs filename in
  let* marker := f_read f 2 in
  if bool_decide (marker = GZIP_MAGIC) then
    let* f := gzip_open fs filename in
    try_except (let* b := _is_binary_file f in Ok (negb b))
               is_IOError (Ok false)
  else Ok false.

Definition categorize_directory (dir_path : string) : kind :=
  let basename := (posixpath.split dir_path).2 in
  if skip_hidden_dirs self
     && pystr.startswith basename "."
     && negb (String.eqb basename "." || String.eqb basename "..")
  then skip
  else if skip_symlink_dirs self && os_path_islink fs dir_path then link
  else if bool_decide (basename ∈ skip_dirs self) then skip
  else directory.

Definition categorize_file (file_path : string) : result kind :=
  let basename := (posixpath.split file_path).2 in
  if skip_hidden_files self && pystr.startswith basename "." then Ok skip
  else if skip_symlink_files self && os_path_islink fs file_path then Ok link
  else
    let file_path_nc := posixpath.normcase file_path in
    let ext := (posixpath.splitext file_path_nc).2 in
    if bool_decide (ext ∈ skip_exts_simple self) || pystr.startswith ext ".~"
    then Ok skip
    else if existsb (pystr.endswith file_path_nc) (skip_exts_endswith self)
    then Ok skip
    else
      try_except
        (let* f := open_rb fs file_path in
         let* is_binary := _is_binary_file f in
         if is_binary then
           let* is_gz := _is_gzipped_text file_path in
           if is_gz then Ok gzip else Ok binary
         else Ok text)
        is_OSError (Ok unreadable).

Definition categorize_path (path_str : string) : result kind :=
  try_except
    (let* st := os_stat fs path_str in
     if S_ISREG (st_mode st) then categorize_file path_str
     else if S_ISDIR (st_mode st) then Ok (categorize_directory path_str)
     else Ok skip)
    is_OSError (Ok unreadable).

(** The body of the loop over the sorted basenames; [rec] is the
    recursive call [self.traverse]. *)
Definition visit (rec : string -> walk) (startpath basename : string) : walk :=
  let path := posixpath.join startpath basename in
  match categorize_path path with
  | Raise e => ([], Raised e)
  | Ok kind =>
      if matchable kind then ([(path, kind)], Done)
      else if decide (kind = directory) then
        if negb (skip_sub_dirs self) then rec path else ([], Done)
      else ([], Done)
  end.

Fixpoint traverse (fuel : nat) (startpath : string) : walk :=
  match fuel with
  | O => ([], OutOfFuel)
  | S fuel' =>
      match categorize_path startpath with
      | Raise e => ([], Raised e)
      | Ok kind =>
          if matchable kind then ([(startpath, kind)], Done)
          else if decide (kind = directory) then
            match os_listdir fs startpath with
            | Raise e => if is_OSError e then ([], Done) else ([], Raised e)
            | Ok basenames =>
                for_yield (visit (traverse fuel') startpath) (sorted basenames)
            end
          else ([], Done)
      end
  end.

End methods.

End Finder.

(** ** grepper.py *)

Module Grepper.

(** A compiled pattern is modelled by its [search] predicate: [regex] on
    a filename, [regex_m] (the same pattern compiled over bytes with
    [DOTALL | MULTILINE]) on file contents. *)
Record t : Type := {
  regex : string -> bool;
  regex_m : bytes -> bool;
  search_file_contents : bool;
}.

Section methods.
Context (fs : filesystem) (self : t).

(** [dict(text=open, gzip=gzip.open)]. *)
Definition _openers (k : kind) : result (string -> result fileobj) :=
  match k with
  | text => Ok (open_rb fs)
  | gzip => Ok (gzip_open fs)
  | _ => Raise KeyError
  end.

Definition _grep_contents (fp : fileobj) (k : kind) : result bool :=
  let* m := f_mmap fp in
  match k with
  | text => Ok (regex_m self m)
  | gzip => let* data := gunzip fs m in Ok (regex_m self data)
  | _ => Raise Exception
  end.

(** In the [try ... finally] the local [f] is bound only when the opener
    returned; [f.close()] on the unbound local raises
    [UnboundLocalError], which replaces the pending exception. *)
Definition do_grep (filename : string) (k : kind) : result bool :=
  let* st := os_stat fs filename in
  if negb (st_size st =? 0) then
    if search_file_contents self then
      match (let* opener := _openers k in opener filename) with
      | Raise _ => Raise UnboundLocalError
      | Ok f => _grep_contents f k
      end
    else Ok (regex self filename)
  else Ok false.

End methods.

End Grepper.

(** ** Specification-side predicates *)

(** The allow-set [{7,8,9,10,12,13,27} ∪ [0x20,0xFF]] of the text test. *)
Definition in_allow_set (x : byte) : Prop :=
  (Byte.to_N x ∈ [7; 8; 9; 10; 12; 13; 27] ∨ 0x20 ≤ Byte.to_N x ≤ 0xFF)%N.

Global Instance in_allow_set_dec x : Decision (in_allow_set x).
Proof. unfold in_allow_set. apply _. Defined.


(** An extension that behaves as a single suffix: splitting
    ["foo.bar" + ext] yields exactly [ext]. *)
Definition single_suffix (ext : string) : Prop :=
  (posixpath.splitext ("foo.bar" +:+ ext)).2 = ext.

(** A hidden directory name: it starts with a dot and is neither [.] nor
    [..]. *)
Definition is_hidden_dir_name (basename : string) : bool :=
  pystr.startswith basename "."
  && negb (String.eqb basename "." || String.eqb basename "..").

(** The basename of a path, [os.path.split(path)[-1]]. *)
Definition basename_of (path : string) : string := (posixpath.split path).2.

(** The name of a directory entry: not empty and without separator. *)
Definition valid_name (b : string) : Prop :=
  b <> "" /\ pystr.rfind posixpath.sep b = -1.

(** The prefix that [join] puts before a name: the directory and a
    separator, unless the directory is empty or already ends with one. *)
Definition with_sep (d : string) : string :=
  if String.eqb d "" || pystr.endswith d "/" then d else d +:+ "/".

(** Directory listings hold entry names. *)
Definition wf_names (fs : filesystem) : Prop :=
  forall d names b, os_listdir fs d = Ok names -> b ∈ names -> valid_name b.

(** [chain start [b1; ...; bn]] is the path [start/b1/.../bn] as [traverse]
    builds it. *)
Definition chain (start : string) (bs : list string) : string :=
  foldl posixpath.join start bs.


(** [route fs self start bs d]: started at [start], the walk descends
    through the children [bs], each classified [directory], and lists [d]. *)
Inductive route (fs : filesystem) (self : Finder.t) (start : string) :
    list string -> string -> Prop :=
  | route_start :
      Finder.categorize_path fs self start = Ok directory ->
      route fs self start [] start
  | route_child bs d names b :
      route fs self start bs d ->
      os_listdir fs d = Ok names -> b ∈ names ->
      Finder.skip_sub_dirs self = false ->
      Finder.categorize_path fs self (posixpath.join d b) = Ok directory ->
      route fs self start (bs ++ [b]) (posixpath.join d b).

(** Byte-lexicographic order on names. *)
Inductive bytes_lex_le : string -> string -> Prop :=
  | lex_empty s : bytes_lex_le "" s
  | lex_less a b s t :
      (N_of_ascii a < N_of_ascii b)%N -> bytes_lex_le (String a s) (String b t)
  | lex_next a s t : bytes_lex_le s t -> bytes_lex_le (String a s) (String a t).


(** An escaped byte: a code point from [U+DC80] to [U+DCFF]. *)
Definition is_escape (c : N) : bool := ((0xDC80 <=? c) && (c <=? 0xDCFF))%N.

(** The well-formed UTF-8 sequences and the code points they encode. *)
Inductive utf8_seq : list N -> N -> Prop :=
  | utf8_seq1 b0 : (b0 < 0x80)%N -> utf8_seq [b0] b0
  | utf8_seq2 b0 b1 :
      (0xC2 <= b0 <= 0xDF)%N -> (0x80 <= b1 <= 0xBF)%N ->
      utf8_seq [b0; b1] ((b0 - 0xC0) * 64 + (b1 - 0x80))%N
  | utf8_seq3 b0 b1 b2 :
      ((b0 = 0xE0 /\ 0xA0 <= b1 <= 0xBF) \/ (0xE1 <= b0 <= 0xEC /\ 0x80 <= b1 <= 0xBF)
       \/ (b0 = 0xED /\ 0x80 <= b1 <= 0x9F)
       \/ (0xEE <= b0 <= 0xEF /\ 0x80 <= b1 <= 0xBF))%N ->
      (0x80 <= b2 <= 0xBF)%N ->
      utf8_seq [b0; b1; b2]
        ((b0 - 0xE0) * 4096 + (b1 - 0x80) * 64 + (b2 - 0x80))%N
  | utf8_seq4 b0 b1 b2 b3 :
      ((b0 = 0xF0 /\ 0x90 <= b1 <= 0xBF) \/ (0xF1 <= b0 <= 0xF3 /\ 0x80 <= b1 <= 0xBF)
       \/ (b0 = 0xF4 /\ 0x80 <= b1 <= 0x8F))%N ->
      (0x80 <= b2 <= 0xBF)%N -> (0x80 <= b3 <= 0xBF)%N ->
      utf8_seq [b0; b1; b2; b3]
        ((b0 - 0xF0) * 262144 + (b1 - 0x80) * 4096 + (b2 - 0x80) * 64
         + (b3 - 0x80))%N.

(** Bytes that are well-formed UTF-8: a concatenation of well-formed
    sequences. *)
Inductive utf8_wf : list N -> Prop :=
  | utf8_wf_nil : utf8_wf []
  | utf8_wf_app s c rest : utf8_seq s c -> utf8_wf rest -> utf8_wf (s ++ rest).

(** A name whose bytes are well-formed UTF-8. *)
Definition utf8_name (s : string) : Prop := utf8_wf (byte_values s).

(** The system calls fail with [OSError] only: [os.stat], [os.listdir],
    [open], [gzip.open], and the two-byte read of a file just opened. *)
Definition os_errors_only (fs : filesystem) : Prop :=
  (forall p e, os_stat fs p = Raise e -> is_OSError e = true)
  /\ (forall p e, os_listdir fs p = Raise e -> is_OSError e = true)
  /\ (forall p e, open_rb fs p = Raise e -> is_OSError e = true)
  /\ (forall p e, gzip_open fs p = Raise e -> is_OSError e = true)
  /\ (forall p f e, open_rb fs p = Ok f -> f_read f 2 = Raise e ->
        is_OSError e = true).

(** ** A concrete filesystem for examples *)

Module Fixture.

Inductive node : Type :=
  | File (raw : bytes) (unzipped : result bytes)
  | Dir (children : list string).

(** A path, whether it is a symbolic link, and what it resolves to. *)
Definition entry : Type := string * (bool * node).

Fixpoint find_entry (tbl : list entry) (p : string) : option (bool * node) :=
  match tbl with
  | [] => None
  | (q, e) :: tbl' => if String.eqb p q then Some e else find_entry tbl' p
  end.

Fixpoint find_raw (tbl : list entry) (raw : bytes) : result bytes :=
  match tbl with
  | [] => Raise BadGzipFile
  | (_, (_, File raw' unzipped)) :: tbl' =>
      if bool_decide (raw = raw') then unzipped else find_raw tbl' raw
  | _ :: tbl' => find_raw tbl' raw
  end.

Definition plain_file (raw : bytes) : fileobj :=
  {| f_read n := Ok (read_n n raw); f_mmap := Ok raw |}.

Definition gzip_file (raw : bytes) (unzipped : result bytes) : fileobj :=
  {| f_read n := let* data := unzipped in Ok (read_n n data);
     f_mmap := Ok raw |}.

Definition mkfs (tbl : list entry) : filesystem :=
  {| os_stat p :=
       match find_entry tbl p with
       | Some (_, File raw _) =>
           Ok {| st_mode := 0x81A4; st_size := Z.of_nat (length raw) |}
       | Some (_, Dir _) => Ok {| st_mode := 0x41ED; st_size := 4096 |}
       | None => Raise OSError
       end;
     os_path_islink p :=
       match find_entry tbl p with
       | Some (l, _) => l
       | None => false
       end;
     os_listdir p :=
       match find_entry tbl p with
       | Some (_, Dir children) => Ok children
       | _ => Raise OSError
       end;
     open_rb p :=
       match find_entry tbl p with
       | Some (_, File raw _) => Ok (plain_file raw)
       | _ => Raise OSError
       end;
     gzip_open p :=
       match find_entry tbl p with
       | Some (_, File raw unzipped) => Ok (gzip_file raw unzipped)
       | _ => Raise OSError
       end;
     gunzip := find_raw tbl |}.

Definition ascii_bytes (s : string) : bytes := String.list_byte_of_string s.

Definition text_file (s : string) : bool * node :=
  (false, File (ascii_bytes s) (Raise BadGzipFile)).

Definition tree : list entry :=
  [ ("t", (false, Dir ["z.txt"; "d"; ".h"; "e"; "empty"]));
    ("t/z.txt", text_file "zed");
    ("t/d", (false, Dir ["c.gz"; "a.txt"; "b.bin"]));
    ("t/d/a.txt", text_file "hello");
    ("t/d/b.bin", (false, File [x00; x01; x02] (Raise BadGzipFile)));
    ("t/d/c.gz", (false, File [x1f; x8b; x08; x00] (Ok (ascii_bytes "secret"))));
    ("t/.h", (false, Dir ["sub"; "k.txt"]));
    ("t/.h/k.txt", text_file "key");
    ("t/.h/sub", (false, Dir ["a"]));
    ("t/.h/sub/a", text_file "deep");
    ("t/e", (false, Dir []));
    ("t/empty", text_file "");
    ("c.gz", (false, File [x1f; x8b; x08; x00] (Ok (ascii_bytes "secret"))));
    ("x.tar.gz", (false, File [x1f; x8b; x08; x00] (Ok [x00; x01])));
    ("bad.gz", (false, File [x1f; x8b; x00] (Raise EOFError)));
    (".cache", (true, Dir [])) ].

Definition fs : filesystem := mkfs tree.

(** A directory with two names given as raw bytes: [F0 9F 98 80], the
    UTF-8 form of [U+1F600], and the lone byte [FF], which is not UTF-8. *)
Definition name_emoji : string :=
  String "240" (String "159" (String "152" (String "128" ""))).
Definition name_ff : string := String "255" "".

Definition raw_tree : list entry :=
  [ ("u", (false, Dir [name_emoji; name_ff]));
    ("u/" +:+ name_emoji, text_file "smile");
    ("u/" +:+ name_ff, text_file "raw") ].

Definition raw_fs : filesystem := mkfs raw_tree.

(** The listings of a table hold entry names. *)
Definition valid_nameb (b : string) : bool :=
  negb (String.eqb b "") && (pystr.rfind posixpath.sep b =? -1).

Definition entry_valid (e : entry) : bool :=
  match e with
  | (_, (_, Dir children)) => forallb valid_nameb children
  | _ => true
  end.

(** [Finder(skip_sub_dirs=False)] and
    [Finder(skip_sub_dirs=False, skip_hidden_dirs=True)]. *)
Definition recursive : Finder.t :=
  Finder.__init__ false false false ∅ ∅ true true 4096.
Definition recursive_no_hidden : Finder.t :=
  Finder.__init__ false true false ∅ ∅ true true 4096.

End Fixture.

(** ** grepper.py, detective.py: construction and the command line *)

(** [s.split(sep)] for a one-character separator. *)
Fixpoint str_split (sep : ascii) (s : string) : list string :=
  match s with
  | EmptyString => [EmptyString]
  | String a s' =>
      if Ascii.eqb a sep then EmptyString :: str_split sep s'
      else match str_split sep s' with
           | x :: xs => String a x :: xs
           | [] => [String a EmptyString]
           end
  end.

(** The [re] module: what [re.compile(pattern, flags).search] answers, for a
    [str] and for a [bytes] pattern; [None] when the pattern does not
    compile ([re.error]). *)
Record re_module : Type := {
  re_compile : string -> N -> option (string -> bool);
  re_compile_bytes : bytes -> N -> option (bytes -> bool);
}.

(** [re.I], [re.MULTILINE], [re.DOTALL]. *)
Definition re_I : N := 2.
Definition re_MULTILINE : N := 8.
Definition re_DOTALL : N := 16.

(** A compiled pattern object: its [pattern] attribute and its [search]
    method. *)
Record regex_obj : Type := {
  pattern : string;
  search : string -> bool;
}.

(** [bytes(s, 'utf-8')], strings being held as their UTF-8 bytes. *)
Definition utf8 (s : string) : bytes := String.list_byte_of_string s.

(** [Grepper.__init__]: [re.error] from the second compilation, modelled
    by [Exception], is not caught. *)
Definition Grepper__init__ (re : re_module) (regex : regex_obj)
    (search_file_contents : bool) : result Grepper.t :=
  match re_compile_bytes re (utf8 (pattern regex)) (N.lor re_DOTALL re_MULTILINE) with
  | Some m =>
      Ok {| Grepper.regex := search regex;
            Grepper.regex_m := m;
            Grepper.search_file_contents := search_file_contents |}
  | None => Raise Exception
  end.

(** [os.path.exists(path)] ([genericpath.exists]). *)
Definition os_path_exists (fs : filesystem) (path : string) : result bool :=
  try_except (let* st := os_stat fs path in Ok true)
             (fun e => match e with ValueError => true | _ => is_OSError e end)
             (Ok false).

Module detective.

(** The parsed command line. *)
Record args : Type := {
  search_contents : bool;
  recurse_dirs : bool;
  skip_hidden_files : bool;
  skip_hidden_dirs : bool;
  skip_dirs : string;
  skip_exts : string;
  follow_symlinks : bool;
  re_flags : list N;
  search_dir : string;
  regex : string;
}.

Definition get_regex (re : re_module) (a : args) : result regex_obj :=
  let flags := foldl N.lor 0%N (re_flags a) in
  match re_compile re (regex a) flags with
  | Some s => Ok {| pattern := regex a; search := s |}
  | None => Raise Exception
  end.

(** [set([x for x in s.split(',') if x])]. *)
Definition comma_set (s : string) : gset string :=
  list_to_set (List.filter (fun x => negb (String.eqb x "")) (str_split "," s)).

Definition get_file_finder (a : args) : Finder.t :=
  let skip_dirs := comma_set (skip_dirs a) in
  let skip_exts := comma_set (skip_exts a) in
  let skip_sub_dirs := negb (recurse_dirs a) in
  Finder.__init__ skip_sub_dirs (skip_hidden_dirs a) (skip_hidden_files a)
    skip_dirs skip_exts (negb (follow_symlinks a)) (negb (follow_symlinks a))
    4096.

(** The generator [find_files]: the pairs of the traversal that pass the
    filter of its loop. *)
Definition find_files (fs : filesystem) (fuel : nat) (a : args) : walk :=
  match os_path_exists fs (search_dir a) with
  | Raise e => ([], Raised e)
  | Ok false => ([], Raised OSError)
  | Ok true =>
      let ff := get_file_finder a in
      let '(out, st) := Finder.traverse fs ff fuel (search_dir a) in
      (List.filter
         (fun '(filename, k) =>
            if negb (search_contents a) then true
            else bool_decide (k = text \/ k = gzip))
         out, st)
  end.

(** The loop of [main] over the pairs of [find_files]: the lines printed
    and how the loop stopped; [st] is how the generator stopped. *)
Fixpoint grep_loop (fs : filesystem) (relpath : string -> string -> string)
    (g : Grepper.t) (root : string) (files : list (string * kind))
    (st : status) : list string * status :=
  match files with
  | [] => ([], st)
  | (filename, k) :: files' =>
      match Grepper.do_grep fs g filename k with
      | Raise e => ([], Raised e)
      | Ok matched =>
          let '(lines, st') := grep_loop fs relpath g root files' st in
          (if matched then relpath filename root :: lines else lines, st')
      end
  end.

(** [main] after [parse_args]; [relpath] is [os.path.relpath]. *)
Definition main (fs : filesystem) (re : re_module)
    (relpath : string -> string -> string) (fuel : nat) (a : args)
    : list string * status :=
  match (let* r := get_regex re a in Grepper__init__ re r (search_contents a)) with
  | Raise e => ([], Raised e)
  | Ok g =>
      let '(files, st) := find_files fs fuel a in
      grep_loop fs relpath g (search_dir a) files st
  end.

End detective.


(** The same command line with other [re] flags. *)
Definition with_re_flags (a : detective.args) (flags : list N) : detective.args :=
  {| detective.search_contents := detective.search_contents a;
     detective.recurse_dirs := detective.recurse_dirs a;
     detective.skip_hidden_files := detective.skip_hidden_files a;
     detective.skip_hidden_dirs := detective.skip_hidden_dirs a;
     detective.skip_dirs := detective.skip_dirs a;
     detective.skip_exts := detective.skip_exts a;
     detective.follow_symlinks := detective.follow_symlinks a;
     detective.re_flags := flags;
     detective.search_dir := detective.search_dir a;
     detective.regex := detective.regex a |}.

(** ** A concrete command line for examples *)

Module CliFixture.

Definition lower (a : ascii) : ascii :=
  let n := N_of_ascii a in
  if ((65 <=? n) && (n <=? 90))%N then ascii_of_N (n + 32) else a.

Fixpoint lower_string (s : string) : string :=
  match s with
  | EmptyString => EmptyString
  | String a s' => String (lower a) (lower_string s')
  end.

(** Does [pat] occur in [s]? *)
Definition contains (pat s : string) : bool :=
  match String.index 0 pat s with
  | Some _ => true
  | None => false
  end.

(** A toy engine: a pattern is searched literally, case-insensitively under
    [re.I]; the pattern ["("] does not compile. *)
Definition literal_search (pat : string) (flags : N) (s : string) : bool :=
  if N.testbit flags 1 then contains (lower_string pat) (lower_string s)
  else contains pat s.

Definition re : re_module :=
  {| re_compile pat flags :=
       if String.eqb pat "(" then None else Some (literal_search pat flags);
     re_compile_bytes pat flags :=
       if String.eqb (String.string_of_list_byte pat) "(" then None
       else Some (fun data =>
                    literal_search (String.string_of_list_byte pat) flags
                                   (String.string_of_list_byte data)) |}.

(** A toy [os.path.relpath]: the path without the root and its separator. *)
Definition relpath (path root : string) : string :=
  if pystr.startswith path (root +:+ "/")
  then pystr.drop (String.length root + 1) path
  else path.

(** [detective.py -r -c -i t SECRET] and [detective.py -r t txt]. *)
Definition content_args : detective.args :=
  {| detective.search_contents := true;
     detective.recurse_dirs := true;
     detective.skip_hidden_files := false;
     detective.skip_hidden_dirs := false;
     detective.skip_dirs := "";
     detective.skip_exts := "";
     detective.follow_symlinks := false;
     detective.re_flags := [re_I];
     detective.search_dir := "t";
     detective.regex := "SECRET" |}.

Definition name_args : detective.args :=
  {| detective.search_contents := false;
     detective.recurse_dirs := true;
     detective.skip_hidden_files := false;
     detective.skip_hidden_dirs := false;
     detective.skip_dirs := ".h,,e";
     detective.skip_exts := "";
     detective.follow_symlinks := false;
     detective.re_flags := [];
     detective.search_dir := "t";
     detective.regex := "txt" |}.

(** [detective.py -r -f . txt]. *)
Definition follow_args : detective.args :=
  {| detective.search_contents := false;
     detective.recurse_dirs := true;
     detective.skip_hidden_files := false;
     detective.skip_hidden_dirs := false;
     detective.skip_dirs := "";
     detective.skip_exts := "";
     detective.follow_symlinks := true;
     detective.re_flags := [];
     detective.search_dir := ".";
     detective.regex := "txt" |}.

End CliFixture.

(** * Properties *)

(** ** os.path examples *)

Example split_example :
  posixpath.split "testdata/sub-dir/file2.bin" = ("testdata/sub-dir", "file2.bin")
  /\ posixpath.split ".hidden-dir" = ("", ".hidden-dir")
  /\ posixpath.split "d/" = ("d", "").
Proof. repeat split; reflexivity. Qed.

Example splitext_example :
  posixpath.splitext "foo.bar.gz" = ("foo.bar", ".gz")
  /\ posixpath.splitext "foo.bar.tar.gz" = ("foo.bar.tar", ".gz")
  /\ posixpath.splitext "dir.d/.bashrc" = ("dir.d/.bashrc", "")
  /\ posixpath.splitext "foo.barp" = ("foo", ".barp").
Proof. repeat split; reflexivity. Qed.

Example join_example :
  posixpath.join "testdata" "test.gz" = "testdata/test.gz"
  /\ posixpath.join "testdata/" "test.gz" = "testdata/test.gz"
  /\ posixpath.join "" "test.gz" = "test.gz".
Proof. repeat split; reflexivity. Qed.

(** ** The binary test *)

Lemma TEXTCHARS_allow_set x : byte_in x TEXTCHARS = bool_decide (in_allow_set x).
Proof. destruct x; vm_compute; reflexivity. Qed.

Lemma ALLBYTES_identity x : nth (N.to_nat (Byte.to_N x)) ALLBYTES x = x.
Proof. destruct x; reflexivity. Qed.

Lemma translate_nontext buf :
  translate buf ALLBYTES TEXTCHARS =
  List.filter (fun x => negb (bool_decide (in_allow_set x))) buf.
Proof.
  unfold translate.
  induction buf as [|x buf IH]; [reflexivity|].
  cbn [List.filter]. rewrite TEXTCHARS_allow_set.
  destruct (bool_decide (in_allow_set x)); cbn [negb map]; [exact IH|].
  rewrite ALLBYTES_identity. f_equal. exact IH.
Qed.

Lemma nontext_nonempty buf :
  bool_of_bytes (translate buf ALLBYTES TEXTCHARS) = true
  <-> Exists (fun x => ~ in_allow_set x) buf.
Proof.
  rewrite translate_nontext.
  induction buf as [|x buf IH]; cbn [List.filter].
  - split; [discriminate | intros H; inversion H].
  - rewrite Exists_cons.
    destruct (bool_decide_reflect (in_allow_set x)); cbn [negb bool_of_bytes].
    + rewrite IH. tauto.
    + tauto.
Qed.

Example fixture_flat_directory :
  Finder.traverse Fixture.fs Finder.default 1 "t/d" =
    ([("t/d/a.txt", text); ("t/d/b.bin", binary); ("t/d/c.gz", gzip)], Done)
  /\ Finder.traverse Fixture.fs Finder.default 1 "t/d/c.gz" =
    ([("t/d/c.gz", gzip)], Done)
  /\ Finder.categorize_path Fixture.fs Finder.default "missing" = Ok unreadable
  /\ Finder.categorize_directory Fixture.fs Finder.default ".cache" = link.
Proof. repeat split; vm_compute; reflexivity. Qed.

Example fixture_traverse :
  Finder.traverse Fixture.fs Fixture.recursive 3 "t" =
    ([("t/.h/k.txt", text); ("t/.h/sub/a", text); ("t/d/a.txt", text);
      ("t/d/b.bin", binary); ("t/d/c.gz", gzip);
      ("t/empty", text); ("t/z.txt", text)], Done)
  /\ Finder.traverse Fixture.fs Fixture.recursive 2 "t" =
    ([("t/.h/k.txt", text)], OutOfFuel)
  /\ Finder.traverse Fixture.fs Finder.default 1 "t" =
    ([("t/empty", text); ("t/z.txt", text)], Done)
  /\ Finder.traverse Fixture.fs Fixture.recursive_no_hidden 2 "t" =
    ([("t/d/a.txt", text); ("t/d/b.bin", binary); ("t/d/c.gz", gzip);
      ("t/empty", text); ("t/z.txt", text)], Done).
Proof. repeat split; vm_compute; reflexivity. Qed.


Lemma is_binary_file_read_ok self f buf :
  f_read f (Finder.binary_bytes self) = Ok buf ->
  Finder._is_binary_file self f =
    Ok (bool_of_bytes (translate buf ALLBYTES TEXTCHARS)).
Proof. intros H. unfold Finder._is_binary_file. rewrite H. reflexivity. Qed.

Lemma is_binary_file_read_raises self f e :
  f_read f (Finder.binary_bytes self) = Raise e ->
  Finder._is_binary_file self f = Raise UnboundLocalError.
Proof. intros H. unfold Finder._is_binary_file. rewrite H. reflexivity. Qed.

(** The name checks of [categorize_file] answer only [skip] or [link]; a
    file with another answer went through the probe. *)
Ltac past_name_checks :=
  unfold Finder.categorize_file in *;
  repeat match goal with
    | |- context [if ?c then Ok skip else _] => destruct c; [congruence|]
    | |- context [if ?c then Ok link else _] => destruct c; [congruence|]
    end.




(** C5. When the probe read raises, [_is_binary_file] does not answer
    "binary": the handler leaves the local [bytes] unbound and the next
    statement raises [UnboundLocalError].  Evaluated on the decompressing
    reader of a truncated gzip stream. *)
Theorem probe_read_failure_raises :
  f_read (Fixture.gzip_file [x1f; x8b; x00] (Raise EOFError))
         (Finder.binary_bytes Finder.default) = Raise EOFError
  /\ Finder._is_binary_file Finder.default
       (Fixture.gzip_file [x1f; x8b; x00] (Raise EOFError))
     = Raise UnboundLocalError
  /\ Finder._is_binary_file Finder.default
       (Fixture.gzip_file [x1f; x8b; x00] (Raise EOFError))
     <> Ok true.
Proof. split; [|split]; [reflexivity | reflexivity | discriminate]. Qed.

(** ** Gzip detection *)

(** A file that passes the name checks, whose raw probe is binary and whose
    first two bytes are the gzip magic, is classified by the text test on the
    decompressed probe: [gzip] when it passes, [binary] when it does not. *)
Lemma gzip_magic_classification fs self file_path f g buf dbuf :
  Finder.categorize_file fs self file_path <> Ok skip ->
  Finder.categorize_file fs self file_path <> Ok link ->
  open_rb fs file_path = Ok f ->
  f_read f (Finder.binary_bytes self) = Ok buf ->
  Exists (fun x => ~ in_allow_set x) buf ->
  f_read f 2 = Ok GZIP_MAGIC ->
  gzip_open fs file_path = Ok g ->
  f_read g (Finder.binary_bytes self) = Ok dbuf ->
  Finder.categorize_file fs self file_path =
    Ok (if bool_of_bytes (translate dbuf ALLBYTES TEXTCHARS) then binary else gzip).
Proof.
  intros Hskip Hlink Hopen Hread Hbin Hmagic Hgz Hdread. past_name_checks.
  rewrite Hopen. cbn [bind]. rewrite (is_binary_file_read_ok _ _ _ Hread).
  apply nontext_nonempty in Hbin. rewrite Hbin. cbn [bind].
  unfold Finder._is_gzipped_text. rewrite Hopen. cbn [bind].
  rewrite Hmagic. cbn [bind]. rewrite bool_decide_eq_true_2 by reflexivity.
  rewrite Hgz. cbn [bind]. rewrite (is_binary_file_read_ok _ _ _ Hdread).
  cbn [bind try_except].
  destruct (bool_of_bytes (translate dbuf ALLBYTES TEXTCHARS)); reflexivity.
Qed.

(** When the decompressing read raises, whatever the exception, the failure
    is not absorbed: [categorize_file] raises [UnboundLocalError]. *)
Lemma gzip_decompression_failure fs self file_path f g buf e :
  Finder.categorize_file fs self file_path <> Ok skip ->
  Finder.categorize_file fs self file_path <> Ok link ->
  open_rb fs file_path = Ok f ->
  f_read f (Finder.binary_bytes self) = Ok buf ->
  Exists (fun x => ~ in_allow_set x) buf ->
  f_read f 2 = Ok GZIP_MAGIC ->
  gzip_open fs file_path = Ok g ->
  f_read g (Finder.binary_bytes self) = Raise e ->
  Finder.categorize_file fs self file_path = Raise UnboundLocalError.
Proof.
  intros Hskip Hlink Hopen Hread Hbin Hmagic Hgz Hdread. past_name_checks.
  rewrite Hopen. cbn [bind]. rewrite (is_binary_file_read_ok _ _ _ Hread).
  apply nontext_nonempty in Hbin. rewrite Hbin. cbn [bind].
  unfold Finder._is_gzipped_text. rewrite Hopen. cbn [bind].
  rewrite Hmagic. cbn [bind]. rewrite bool_decide_eq_true_2 by reflexivity.
  rewrite Hgz. cbn [bind]. rewrite (is_binary_file_read_raises _ _ _ Hdread).
  reflexivity.
Qed.

(** C2. A file holding the gzip magic followed by a truncated stream
    ([1F 8B 00]) is not classified [binary]: [UnboundLocalError] escapes
    from [categorize_file], [categorize_path] and [traverse].  The files
    whose stream decompresses are classified as the claim says: [gzip] for a
    text payload, [binary] for a binary one. *)
Theorem gzip_failure_not_absorbed :
  Finder.categorize_file Fixture.fs Finder.default "bad.gz" = Raise UnboundLocalError
  /\ Finder.categorize_path Fixture.fs Finder.default "bad.gz" = Raise UnboundLocalError
  /\ Finder.traverse Fixture.fs Finder.default 1 "bad.gz" = ([], Raised UnboundLocalError)
  /\ Finder.categorize_file Fixture.fs Finder.default "c.gz" = Ok gzip
  /\ Finder.categorize_file Fixture.fs Finder.default "x.tar.gz" = Ok binary.
Proof. repeat split; vm_compute; reflexivity. Qed.

(** ** Directory classification *)

(** C7. In [categorize_directory] the hidden-name check comes before the
    symlink check, which comes before the skip-dir-names check: with both
    flags set a hidden symlinked directory is [skip], not [link]; and a
    symlinked directory that the hidden check lets through is [link] even
    when its name is in the skip list. *)
Theorem hidden_check_precedes_symlink_check fs self dir_path :
  Finder.skip_symlink_dirs self = true ->
  os_path_islink fs dir_path = true ->
  (Finder.skip_hidden_dirs self = true ->
   is_hidden_dir_name (basename_of dir_path) = true ->
   Finder.categorize_directory fs self dir_path = skip)
  /\ (Finder.skip_hidden_dirs self && is_hidden_dir_name (basename_of dir_path)
        = false ->
      Finder.categorize_directory fs self dir_path = link).
Proof.
  intros Hsym Hlink. unfold Finder.categorize_directory, is_hidden_dir_name,
    basename_of. rewrite Hsym, Hlink. split.
  - intros -> Hhid. rewrite <- andb_assoc, Hhid. reflexivity.
  - intros Hno. rewrite <- andb_assoc, Hno. reflexivity.
Qed.

Lemma hidden_check_precedes_symlink_check_witness :
  os_path_islink Fixture.fs ".cache" = true
  /\ Finder.categorize_directory Fixture.fs
       (Finder.__init__ true true false {[ ".cache" ]} ∅ true true 4096) ".cache"
     = skip
  /\ Finder.categorize_directory Fixture.fs
       (Finder.__init__ true false false {[ ".cache" ]} ∅ true true 4096) ".cache"
     = link.
Proof.
  split; [reflexivity|]. split.
  - apply (hidden_check_precedes_symlink_check Fixture.fs
             (Finder.__init__ true true false {[ ".cache" ]} ∅ true true 4096)
             ".cache"); reflexivity.
  - apply (hidden_check_precedes_symlink_check Fixture.fs
             (Finder.__init__ true false false {[ ".cache" ]} ∅ true true 4096)
             ".cache"); reflexivity.
Defined.

(** ** Matching *)

Example fixture_do_grep :
  let g := {| Grepper.regex := fun name => pystr.endswith name ".gz";
              Grepper.regex_m := fun data =>
                bool_decide (data = Fixture.ascii_bytes "secret");
              Grepper.search_file_contents := true |} in
  Grepper.do_grep Fixture.fs g "t/d/c.gz" gzip = Ok true
  /\ Grepper.do_grep Fixture.fs g "t/d/a.txt" text = Ok false
  /\ Grepper.do_grep Fixture.fs g "t/d/b.bin" binary = Raise UnboundLocalError.
Proof. repeat split; vm_compute; reflexivity. Qed.

(** C4. For a file whose size is zero [do_grep] returns [False], whatever
    the pattern, the kind and the mode. *)
Theorem zero_size_never_matches fs self filename k st :
  os_stat fs filename = Ok st ->
  st_size st = 0 ->
  Grepper.do_grep fs self filename k = Ok false.
Proof.
  intros Hstat Hsize. unfold Grepper.do_grep. rewrite Hstat. cbn [bind].
  rewrite Hsize. reflexivity.
Qed.

Lemma zero_size_never_matches_witness :
  Grepper.do_grep Fixture.fs
    {| Grepper.regex := fun _ => true;
       Grepper.regex_m := fun _ => true;
       Grepper.search_file_contents := false |} "t/empty" text = Ok false
  /\ Grepper.do_grep Fixture.fs
    {| Grepper.regex := fun _ => true;
       Grepper.regex_m := fun _ => true;
       Grepper.search_file_contents := true |} "t/empty" text = Ok false.
Proof.
  split;
    apply (zero_size_never_matches Fixture.fs _ "t/empty" text
             {| st_mode := 0x81A4; st_size := 0 |}); reflexivity.
Defined.

(** C10. [do_grep] stats the file first: when [os.stat] raises, the
    exception propagates, in name mode as in content mode. *)
Theorem stat_failure_propagates fs self filename k e :
  os_stat fs filename = Raise e ->
  Grepper.do_grep fs self filename k = Raise e.
Proof.
  intros Hstat. unfold Grepper.do_grep. rewrite Hstat. reflexivity.
Qed.

Lemma stat_failure_propagates_witness :
  Grepper.do_grep Fixture.fs
    {| Grepper.regex := fun _ => true;
       Grepper.regex_m := fun _ => true;
       Grepper.search_file_contents := false |} "missing" text = Raise OSError
  /\ Grepper.do_grep Fixture.fs
    {| Grepper.regex := fun _ => true;
       Grepper.regex_m := fun _ => true;
       Grepper.search_file_contents := true |} "missing" text = Raise OSError.
Proof.
  split; apply (stat_failure_propagates Fixture.fs _ "missing" text OSError);
    reflexivity.
Defined.

(** ** Strings and paths *)

Section strings.
Implicit Types (s t p d b : string) (c a : ascii).

Lemma str_app_cons a s t : String a s +:+ t = String a (s +:+ t).
Proof. reflexivity. Qed.

Lemma str_app_assoc s t u : (s +:+ t) +:+ u = s +:+ t +:+ u.
Proof.
  induction s as [|a s IH]; [reflexivity|].
  rewrite !str_app_cons, IH. reflexivity.
Qed.

Lemma str_length_app s t :
  String.length (s +:+ t) = (String.length s + String.length t)%nat.
Proof.
  induction s as [|a s IH]; [reflexivity|].
  rewrite str_app_cons. cbn [String.length]. rewrite IH. reflexivity.
Qed.

Lemma str_drop_app s t n :
  pystr.drop (String.length s + n) (s +:+ t) = pystr.drop n t.
Proof. induction s as [|a s IH]; [reflexivity|]. exact IH. Qed.

Lemma str_drop_app_length s t : pystr.drop (String.length s) (s +:+ t) = t.
Proof.
  rewrite <- (Nat.add_0_r (String.length s)), str_drop_app. reflexivity.
Qed.

Lemma str_take_drop n s : pystr.take n s +:+ pystr.drop n s = s.
Proof.
  revert s. induction n as [|n IH]; intros [|a s]; try reflexivity.
  cbn [pystr.take pystr.drop]. rewrite str_app_cons, IH. reflexivity.
Qed.

Lemma str_length_take n s :
  (n <= String.length s)%nat -> String.length (pystr.take n s) = n.
Proof.
  revert s. induction n as [|n IH]; intros [|a s] H; cbn in *; try lia.
  rewrite IH; lia.
Qed.

Lemma rfind_bounds c s : -1 <= pystr.rfind c s < Z.of_nat (String.length s).
Proof.
  induction s as [|a s IH]; cbn [pystr.rfind String.length]; [lia|].
  destruct (0 <=? pystr.rfind c s) eqn:E; [lia|].
  destruct (Ascii.eqb a c); lia.
Qed.

Lemma rfind_app c s t :
  pystr.rfind c (s +:+ t) =
    if 0 <=? pystr.rfind c t
    then Z.of_nat (String.length s) + pystr.rfind c t
    else pystr.rfind c s.
Proof.
  induction s as [|a s IH].
  - change ("" +:+ t) with t. cbn [pystr.rfind String.length].
    pose proof (rfind_bounds c t).
    destruct (Z.leb_spec 0 (pystr.rfind c t)); lia.
  - rewrite str_app_cons. cbn [pystr.rfind String.length]. rewrite IH.
    destruct (Z.leb_spec 0 (pystr.rfind c t)); [|reflexivity].
    destruct (Z.leb_spec 0 (Z.of_nat (String.length s) + pystr.rfind c t)); lia.
Qed.

Lemma endswith_sep_split d :
  pystr.endswith d "/" = true ->
  exists d', d = d' +:+ "/".
Proof.
  unfold pystr.endswith. intros H. apply andb_true_iff in H as [_ H].
  apply String.eqb_eq in H.
  exists (pystr.take (String.length d - String.length "/") d).
  pose proof (str_take_drop (String.length d - String.length "/") d) as E.
  rewrite H in E. symmetry. exact E.
Qed.

Lemma endswith_sep_app d' : pystr.endswith (d' +:+ "/") "/" = true.
Proof.
  unfold pystr.endswith. rewrite str_length_app. cbn [String.length].
  apply andb_true_iff. split; [apply Nat.leb_le; lia|].
  replace (String.length d' + 1 - 1)%nat with (String.length d' + 0)%nat by lia.
  rewrite str_drop_app. reflexivity.
Qed.

Lemma valid_name_not_absolute b :
  valid_name b -> pystr.startswith b "/" = false.
Proof.
  intros [Hne Hsep]. destruct b as [|a b]; [congruence|].
  unfold pystr.startswith. cbn [String.prefix].
  destruct (ascii_dec "/" a) as [<-|]; [|reflexivity].
  exfalso. cbn [pystr.rfind] in Hsep. unfold posixpath.sep in Hsep.
  destruct (0 <=? pystr.rfind "/" b) eqn:E; [lia|].
  rewrite Ascii.eqb_refl in Hsep. discriminate.
Qed.

Lemma join_valid d b :
  valid_name b -> posixpath.join d b = with_sep d +:+ b.
Proof.
  intros Hb. unfold posixpath.join, with_sep.
  rewrite (valid_name_not_absolute b Hb).
  destruct (String.eqb d "" || pystr.endswith d "/"); [reflexivity|].
  symmetry. apply str_app_assoc.
Qed.

Lemma str_take_app_length s t : pystr.take (String.length s) (s +:+ t) = s.
Proof.
  induction s as [|a s IH]; [destruct t; reflexivity|].
  rewrite str_app_cons. cbn [String.length pystr.take]. rewrite IH. reflexivity.
Qed.

Lemma str_app_inj_r s t u : s +:+ u = t +:+ u -> s = t.
Proof.
  intros H. assert (String.length s = String.length t) as Hlen.
  { apply (f_equal String.length) in H. rewrite !str_length_app in H. lia. }
  rewrite <- (str_take_app_length s u), H, Hlen. apply str_take_app_length.
Qed.

Lemma rfind_with_sep d :
  pystr.rfind posixpath.sep (with_sep d) + 1
  = Z.of_nat (String.length (with_sep d)).
Proof.
  unfold with_sep.
  destruct (String.eqb_spec d "") as [->|Hne]; [reflexivity|].
  cbn [orb]. destruct (pystr.endswith d "/") eqn:E.
  - apply endswith_sep_split in E as [d' ->].
    rewrite rfind_app, str_length_app. cbn. lia.
  - rewrite rfind_app, str_length_app. cbn. lia.
Qed.

Lemma length_with_sep d : (String.length d <= String.length (with_sep d))%nat.
Proof.
  unfold with_sep. destruct (String.eqb d "" || pystr.endswith d "/"); [lia|].
  rewrite str_length_app. lia.
Qed.

Lemma rfind_join d b :
  valid_name b ->
  pystr.rfind posixpath.sep (posixpath.join d b) + 1
  = Z.of_nat (String.length (with_sep d)).
Proof.
  intros Hb. rewrite (join_valid d b Hb), rfind_app.
  destruct Hb as [_ ->]. cbn [Z.leb Z.compare]. apply rfind_with_sep.
Qed.

Lemma basename_join d b :
  valid_name b -> basename_of (posixpath.join d b) = b.
Proof.
  intros Hb. unfold basename_of, posixpath.split. cbn [snd].
  rewrite (rfind_join d b Hb), Nat2Z.id, (join_valid d b Hb).
  apply str_drop_app_length.
Qed.

Lemma head_join d b :
  valid_name b ->
  pystr.take (Z.to_nat (pystr.rfind posixpath.sep (posixpath.join d b) + 1))
             (posixpath.join d b) = with_sep d.
Proof.
  intros Hb. rewrite (rfind_join d b Hb), Nat2Z.id, (join_valid d b Hb).
  apply str_take_app_length.
Qed.

Lemma join_inj d d' b b' :
  valid_name b -> valid_name b' ->
  posixpath.join d b = posixpath.join d' b' ->
  b = b' /\ with_sep d = with_sep d'.
Proof.
  intros Hb Hb' H. split.
  - rewrite <- (basename_join d b Hb), H. apply basename_join, Hb'.
  - rewrite <- (head_join d b Hb), H. apply head_join, Hb'.
Qed.

Lemma length_valid_name b : valid_name b -> (0 < String.length b)%nat.
Proof. intros [Hne _]. destruct b; [congruence | cbn; lia]. Qed.

Lemma length_join d b :
  valid_name b ->
  (String.length d < String.length (posixpath.join d b))%nat.
Proof.
  intros Hb. rewrite (join_valid d b Hb), str_length_app.
  pose proof (length_with_sep d). pose proof (length_valid_name b Hb). lia.
Qed.

Lemma join_not_endswith_sep d b :
  valid_name b -> pystr.endswith (posixpath.join d b) "/" = false.
Proof.
  intros Hb. destruct (pystr.endswith (posixpath.join d b) "/") eqn:E;
    [exfalso|reflexivity].
  apply endswith_sep_split in E as [p Hp].
  pose proof (rfind_join d b Hb) as Hr. rewrite Hp, rfind_app in Hr.
  cbn in Hr. apply (f_equal String.length) in Hp.
  rewrite (join_valid d b Hb), !str_length_app in Hp. cbn in Hp.
  pose proof (length_valid_name b Hb). lia.
Qed.

Lemma with_sep_inj d d' :
  with_sep d = with_sep d' ->
  d = d'
  \/ (pystr.endswith d "/" = true /\ (String.length d' < String.length d)%nat)
  \/ (pystr.endswith d' "/" = true /\ (String.length d < String.length d')%nat).
Proof.
  unfold with_sep.
  destruct (String.eqb d "" || pystr.endswith d "/") eqn:E,
           (String.eqb d' "" || pystr.endswith d' "/") eqn:E'; intros H.
  - left. exact H.
  - right. left. subst d. split; [apply endswith_sep_app|].
    rewrite str_length_app. cbn. lia.
  - right. right. subst d'. split; [apply endswith_sep_app|].
    rewrite str_length_app. cbn. lia.
  - left. eapply str_app_inj_r, H.
Qed.

Lemma chain_snoc start bs b :
  chain start (bs ++ [b]) = posixpath.join (chain start bs) b.
Proof. apply foldl_snoc. Qed.


Lemma length_chain start bs :
  Forall valid_name bs ->
  (String.length start <= String.length (chain start bs))%nat.
Proof.
  induction bs as [|b bs IH] using rev_ind; intros H; [reflexivity|].
  apply Forall_app in H as [Hbs Hb]. apply Forall_inv in Hb.
  rewrite chain_snoc. pose proof (length_join (chain start bs) b Hb).
  specialize (IH Hbs). lia.
Qed.

Lemma length_chain_snoc start bs b :
  Forall valid_name bs -> valid_name b ->
  (String.length start < String.length (chain start (bs ++ [b])))%nat.
Proof.
  intros Hbs Hb. rewrite chain_snoc.
  pose proof (length_join (chain start bs) b Hb).
  pose proof (length_chain start bs Hbs). lia.
Qed.

(** A chain is either the start path or a joined path, which does not end
    with a separator. *)
Lemma chain_endswith_sep start bs :
  Forall valid_name bs ->
  pystr.endswith (chain start bs) "/" = true -> bs = [].
Proof.
  destruct bs as [|b bs _] using rev_ind; [reflexivity|].
  intros H E. apply Forall_app in H as [_ Hb]. apply Forall_inv in Hb.
  rewrite chain_snoc, (join_not_endswith_sep _ b Hb) in E. discriminate.
Qed.

(** Two walks from the same start path that build the same path went through
    the same names. *)
Lemma chain_inj start xs ys :
  Forall valid_name xs -> Forall valid_name ys ->
  chain start xs = chain start ys -> xs = ys.
Proof.
  revert ys. induction xs as [|x xs IH] using rev_ind; intros ys Hxs Hys H.
  - destruct ys as [|y ys _] using rev_ind; [reflexivity|].
    apply Forall_app in Hys as [Hys Hy]. apply Forall_inv in Hy.
    pose proof (length_chain_snoc start ys y Hys Hy) as Hlen.
    rewrite <- H in Hlen. cbn in Hlen. lia.
  - apply Forall_app in Hxs as [Hxs Hx]. apply Forall_inv in Hx.
    destruct ys as [|y ys _] using rev_ind.
    + pose proof (length_chain_snoc start xs x Hxs Hx) as Hlen.
      rewrite H in Hlen. cbn in Hlen. lia.
    + apply Forall_app in Hys as [Hys Hy]. apply Forall_inv in Hy.
      rewrite !chain_snoc in H.
      apply join_inj in H as [-> Hsep]; [|assumption..].
      f_equal. apply IH; [assumption..|].
      destruct (with_sep_inj _ _ Hsep) as [Heq|[[E Hlen]|[E Hlen]]];
        [exact Heq|exfalso..].
      * apply chain_endswith_sep in E; [|assumption]. subst xs.
        pose proof (length_chain start ys Hys). cbn in Hlen. lia.
      * apply chain_endswith_sep in E; [|assumption]. subst ys.
        pose proof (length_chain start xs Hxs). cbn in Hlen. lia.
Qed.

Lemma str_drop_app_le n s t :
  (n <= String.length s)%nat -> pystr.drop n (s +:+ t) = pystr.drop n s +:+ t.
Proof.
  revert s. induction n as [|n IH]; intros [|a s] H; cbn in H;
    try reflexivity; try lia.
  rewrite str_app_cons. cbn [pystr.drop]. apply IH. lia.
Qed.

Lemma str_take_app_plus s t n :
  pystr.take (String.length s + n) (s +:+ t) = s +:+ pystr.take n t.
Proof.
  induction s as [|a s IH]; [reflexivity|].
  rewrite !str_app_cons. cbn [String.length Nat.add pystr.take].
  rewrite IH. reflexivity.
Qed.

Lemma str_length_drop n s :
  String.length (pystr.drop n s) = (String.length s - n)%nat.
Proof.
  revert s. induction n as [|n IH]; intros [|a s]; cbn; try lia. apply IH.
Qed.

Lemma str_drop_drop n m s :
  pystr.drop m (pystr.drop n s) = pystr.drop (n + m) s.
Proof.
  revert s. induction n as [|n IH]; intros [|a s]; cbn; try reflexivity.
  - destruct m; reflexivity.
  - apply IH.
Qed.

Lemma has_non_dot_app s t :
  posixpath.has_non_dot (s +:+ t)
  = posixpath.has_non_dot s || posixpath.has_non_dot t.
Proof.
  induction s as [|a s IH]; [reflexivity|].
  rewrite str_app_cons. cbn [posixpath.has_non_dot].
  destruct (Ascii.eqb a posixpath.extsep); [exact IH|reflexivity].
Qed.

(** The extension of a path is the extension of its last component: for a
    name without separator whose part before the last dot is not made of
    dots only. *)
Lemma splitext_app dir name :
  pystr.rfind posixpath.sep name = -1 ->
  0 <= pystr.rfind posixpath.extsep name ->
  posixpath.has_non_dot
    (pystr.take (Z.to_nat (pystr.rfind posixpath.extsep name)) name) = true ->
  (posixpath.splitext (dir +:+ name)).2
  = pystr.drop (Z.to_nat (pystr.rfind posixpath.extsep name)) name.
Proof.
  intros Hsep Hdot Hstem. unfold posixpath.splitext.
  rewrite !rfind_app, Hsep. cbn [Z.leb Z.compare].
  destruct (Z.leb_spec 0 (pystr.rfind posixpath.extsep name)) as [_|]; [|lia].
  set (i := pystr.rfind posixpath.extsep name) in *.
  pose proof (rfind_bounds posixpath.sep dir) as Hj.
  set (j := pystr.rfind posixpath.sep dir) in *.
  assert (pystr.slice (j + 1) (Z.of_nat (String.length dir) + i) (dir +:+ name)
          = pystr.drop (Z.to_nat (j + 1)) dir
            +:+ pystr.take (Z.to_nat i) name) as Hslice.
  { unfold pystr.slice. rewrite str_drop_app_le by lia.
    replace (Z.to_nat (Z.of_nat (String.length dir) + i - (j + 1)))
      with (String.length (pystr.drop (Z.to_nat (j + 1)) dir) + Z.to_nat i)%nat
      by (rewrite str_length_drop; lia).
    apply str_take_app_plus. }
  rewrite Hslice, has_non_dot_app, Hstem, orb_true_r.
  destruct (Z.ltb_spec j (Z.of_nat (String.length dir) + i)) as [_|]; [|lia].
  cbn [andb snd].
  replace (Z.to_nat (Z.of_nat (String.length dir) + i))
    with (String.length dir + Z.to_nat i)%nat by lia.
  apply str_drop_app.
Qed.

Lemma endswith_app dir name suffix :
  (String.length suffix <= String.length name)%nat ->
  pystr.endswith (dir +:+ name) suffix = pystr.endswith name suffix.
Proof.
  intros Hlen. unfold pystr.endswith. rewrite str_length_app.
  replace (String.length suffix <=? String.length dir + String.length name)%nat
    with true by (symmetry; apply Nat.leb_le; lia).
  replace (String.length suffix <=? String.length name)%nat
    with true by (symmetry; apply Nat.leb_le; lia).
  replace (String.length dir + String.length name - String.length suffix)%nat
    with (String.length dir + (String.length name - String.length suffix))%nat
    by lia.
  rewrite str_drop_app. reflexivity.
Qed.

(** A suffix longer than the name matches only if its tail matches the
    name. *)
Lemma endswith_tail path suffix n :
  pystr.endswith path suffix = true ->
  pystr.endswith path (pystr.drop n suffix) = true.
Proof.
  unfold pystr.endswith. intros [Hlen Heq]%andb_true_iff.
  apply Nat.leb_le in Hlen. apply String.eqb_eq in Heq.
  rewrite str_length_drop. apply andb_true_iff. split; [apply Nat.leb_le; lia|].
  apply String.eqb_eq.
  destruct (decide (n <= String.length suffix)%nat) as [Hn|Hn].
  - rewrite <- Heq at 2. rewrite str_drop_drop. f_equal. lia.
  - replace (String.length suffix - n)%nat with 0%nat by lia.
    rewrite Nat.sub_0_r.
    assert (forall m s, (String.length s <= m)%nat -> pystr.drop m s = "") as Hall.
    { induction m as [|m IHm]; intros [|a s] Hs; cbn in *;
        try reflexivity; try lia. apply IHm. lia. }
    rewrite !Hall by lia. reflexivity.
Qed.

End strings.

(** ** Traversal *)

Section traversal.
Context (fs : filesystem) (self : Finder.t).

Lemma traverse_S fuel startpath :
  Finder.traverse fs self (S fuel) startpath =
    match Finder.categorize_path fs self startpath with
    | Raise e => ([], Raised e)
    | Ok k =>
        if matchable k then ([(startpath, k)], Done)
        else if decide (k = directory) then
          match os_listdir fs startpath with
          | Raise e => if is_OSError e then ([], Done) else ([], Raised e)
          | Ok basenames =>
              for_yield (Finder.visit fs self (Finder.traverse fs self fuel) startpath)
                        (sorted basenames)
          end
        else ([], Done)
    end.
Proof. reflexivity. Qed.

Lemma for_yield_elem_of {A} (body : A -> walk) l x :
  x ∈ (for_yield body l).1 -> exists b, b ∈ l /\ x ∈ (body b).1.
Proof.
  induction l as [|b l IH]; cbn [for_yield].
  - intros H. inversion H.
  - destruct (body b) as [out st] eqn:Hb.
    assert (x ∈ out -> exists b0, b0 ∈ b :: l /\ x ∈ (body b0).1) as Hhere.
    { intros Hx. exists b. rewrite Hb. split; [left|exact Hx]. }
    destruct st; [|exact Hhere..].
    destruct (for_yield body l) as [out' st']. cbn [fst] in *.
    intros [Hx|Hx]%elem_of_app; [exact (Hhere Hx)|].
    destruct (IH Hx) as (b0 & Hin & Hx0). exists b0. split; [right|]; assumption.
Qed.

(** Every pair yielded by the loop body for a child is the child itself or
    comes from the recursive call on it, which happens only for a child
    classified [directory] when sub-directories are not skipped. *)
Lemma visit_elem_of rec startpath basename x :
  x ∈ (Finder.visit fs self rec startpath basename).1 ->
  (exists k, x = (posixpath.join startpath basename, k)
             /\ matchable k = true
             /\ Finder.categorize_path fs self (posixpath.join startpath basename) = Ok k)
  \/ (Finder.categorize_path fs self (posixpath.join startpath basename) = Ok directory
      /\ Finder.skip_sub_dirs self = false
      /\ x ∈ (rec (posixpath.join startpath basename)).1).
Proof.
  unfold Finder.visit.
  destruct (Finder.categorize_path fs self (posixpath.join startpath basename))
    as [k|e] eqn:Hk; [|intros H; inversion H].
  destruct (matchable k) eqn:Hm.
  - intros ->%list_elem_of_singleton. left. exists k. auto.
  - destruct (decide (k = directory)) as [->|]; [|intros H; inversion H].
    destruct (Finder.skip_sub_dirs self); cbn [negb]; [intros H; inversion H|].
    intros H. right. auto.
Qed.

Lemma route_cons start names b bs d :
  Finder.categorize_path fs self start = Ok directory ->
  os_listdir fs start = Ok names -> b ∈ names ->
  Finder.skip_sub_dirs self = false ->
  route fs self (posixpath.join start b) bs d ->
  route fs self start (b :: bs) d.
Proof.
  intros Hstart Hnames Hb Hrec. induction 1 as [Hdir|bs d names' c _ IH Hl Hc _ Hdir].
  - apply (route_child fs self start [] start names b); auto using route_start.
  - apply (route_child fs self start (b :: bs) d names' c); auto.
Qed.

Lemma traverse_sound fuel start p k :
  (p, k) ∈ (Finder.traverse fs self fuel start).1 ->
  matchable k = true
  /\ Finder.categorize_path fs self p = Ok k
  /\ (p = start
      \/ exists bs d names b,
           route fs self start bs d /\ os_listdir fs d = Ok names
           /\ b ∈ names /\ p = posixpath.join d b).
Proof.
  revert start. induction fuel as [|fuel IH]; intros start;
    cbn [Finder.traverse]; [intros H; inversion H|].
  destruct (Finder.categorize_path fs self start) as [k0|e] eqn:Hstart;
    [|intros H; inversion H].
  destruct (matchable k0) eqn:Hm.
  { intros [= -> ->]%list_elem_of_singleton. auto. }
  destruct (decide (k0 = directory)) as [->|]; [|intros H; inversion H].
  destruct (os_listdir fs start) as [names|e] eqn:Hnames;
    [|destruct (is_OSError e); intros H; inversion H].
  intros (b & Hb & Hx)%for_yield_elem_of.
  unfold sorted in Hb. rewrite merge_sort_Permutation in Hb.
  apply visit_elem_of in Hx as [(k1 & [= -> ->] & Hk1 & Hcat)|(Hdir & Hrec & Hx)].
  - split; [exact Hk1|]. split; [exact Hcat|]. right.
    exists [], start, names, b. auto using route_start.
  - destruct (IH _ Hx) as (Hk & Hcat & Hfrom).
    split; [exact Hk|]. split; [exact Hcat|]. right.
    destruct Hfrom as [->|(bs & d & names' & c & Hroute & Hl & Hc & ->)].
    + exists [], start, names, b. auto using route_start.
    + exists (b :: bs), d, names', c. eauto using route_cons.
Qed.

Lemma matchable_kinds k :
  matchable k = true <-> k = text \/ k = binary \/ k = gzip.
Proof. destruct k; cbn; intuition discriminate. Qed.

(** A start path that is not classified [directory] is never listed: it is
    yielded alone when matchable and contributes nothing otherwise. *)
Lemma traverse_not_directory fuel start k :
  Finder.categorize_path fs self start = Ok k -> k <> directory ->
  Finder.traverse fs self (S fuel) start
  = (if matchable k then [(start, k)] else [], Done).
Proof.
  intros Hk Hne. cbn [Finder.traverse]. rewrite Hk.
  destruct (matchable k); [reflexivity|].
  destruct (decide (k = directory)); [contradiction|reflexivity].
Qed.

(** The loop body makes no recursive call for a child that is not classified
    [directory]: its result does not depend on the recursive function. *)
Lemma visit_not_directory rec rec' start basename :
  Finder.categorize_path fs self (posixpath.join start basename) <> Ok directory ->
  Finder.visit fs self rec start basename
  = Finder.visit fs self rec' start basename.
Proof.
  intros Hne. unfold Finder.visit.
  destruct (Finder.categorize_path fs self (posixpath.join start basename))
    as [k|e]; [|reflexivity].
  destruct (matchable k); [reflexivity|].
  destruct (decide (k = directory)) as [->|]; [contradiction|reflexivity].
Qed.

(** C3. Whatever the start path, the configuration and the fuel, every pair
    [(p, k)] in the sequence produced by [traverse] has [k] among [text],
    [binary], [gzip], and [k] is the classification of [p]; a path classified
    [skip], [link], [directory] or [unreadable] is never yielded; and the
    walk lists and recurses only into paths classified [directory]: a start
    path or a child with another classification is yielded or passed over
    without any listing or recursive call, and every yielded path is the
    start path or a child of a directory reached through children that are
    all classified [directory]. *)
Theorem traverse_yields_only_matchable fuel startpath :
  (forall p k, (p, k) ∈ (Finder.traverse fs self fuel startpath).1 ->
     (k = text \/ k = binary \/ k = gzip)
     /\ Finder.categorize_path fs self p = Ok k)
  /\ (forall p k k',
        Finder.categorize_path fs self p = Ok k' ->
        k' = skip \/ k' = link \/ k' = directory \/ k' = unreadable ->
        (p, k) ∉ (Finder.traverse fs self fuel startpath).1)
  /\ (forall k, Finder.categorize_path fs self startpath = Ok k ->
        k <> directory ->
        Finder.traverse fs self (S fuel) startpath
        = (if matchable k then [(startpath, k)] else [], Done))
  /\ (forall rec rec' basename,
        Finder.categorize_path fs self (posixpath.join startpath basename)
          <> Ok directory ->
        Finder.visit fs self rec startpath basename
        = Finder.visit fs self rec' startpath basename)
  /\ (forall p k, (p, k) ∈ (Finder.traverse fs self fuel startpath).1 ->
        p = startpath
        \/ exists bs d names b,
             route fs self startpath bs d /\ os_listdir fs d = Ok names
             /\ b ∈ names /\ p = posixpath.join d b).
Proof.
  split; [|split; [|split; [|split]]].
  - intros p k H. apply traverse_sound in H as (Hk & Hcat & _).
    split; [apply matchable_kinds, Hk | exact Hcat].
  - intros p k k' Hcat Hk' H. apply traverse_sound in H as (Hk & Hcat' & _).
    rewrite Hcat in Hcat'. injection Hcat' as Heq. subst k'.
    destruct Hk' as [-> | [-> | [-> | ->]]]; discriminate.
  - intros k. apply traverse_not_directory.
  - intros rec rec' basename. apply visit_not_directory.
  - intros p k H. apply traverse_sound in H as (_ & _ & H). exact H.
Qed.

(** *** Fuel *)

Lemma for_yield_mono {A} (body body' : A -> walk) l :
  (forall b, (body b).2 <> OutOfFuel -> body' b = body b) ->
  (for_yield body l).2 <> OutOfFuel ->
  for_yield body' l = for_yield body l.
Proof.
  intros Hbody. induction l as [|b l IH]; [reflexivity|].
  cbn [for_yield]. specialize (Hbody b).
  destruct (body b) as [out st]. cbn [snd] in Hbody.
  destruct st; cbn [snd]; intros H.
  - rewrite Hbody by discriminate.
    destruct (for_yield body l) as [out' st'] eqn:Hrest.
    rewrite IH; [reflexivity|exact H].
  - rewrite Hbody by discriminate. reflexivity.
  - contradiction.
Qed.

(** A walk that stopped for another reason than fuel is the walk of the
    generator: more fuel does not change it. *)
Lemma traverse_fuel_mono fuel start :
  (Finder.traverse fs self fuel start).2 <> OutOfFuel ->
  Finder.traverse fs self (S fuel) start = Finder.traverse fs self fuel start.
Proof.
  revert start. induction fuel as [|fuel IH]; intros start H;
    [cbn in H; contradiction|].
  rewrite (traverse_S (S fuel)). rewrite traverse_S in H |- *.
  destruct (Finder.categorize_path fs self start) as [k|e]; [|reflexivity].
  destruct (matchable k); [reflexivity|].
  destruct (decide (k = directory)) as [Hk|]; [|reflexivity].
  destruct (os_listdir fs start) as [names|e]; [|reflexivity].
  apply for_yield_mono; [|exact H].
  intros b. unfold Finder.visit.
  destruct (Finder.categorize_path fs self (posixpath.join start b)) as [k'|e'];
    [|reflexivity].
  destruct (matchable k'); [reflexivity|].
  destruct (decide (k' = directory)) as [Hk'|]; [|reflexivity].
  destruct (negb (Finder.skip_sub_dirs self)); [|reflexivity].
  apply IH.
Qed.

Lemma for_yield_prefix_mono {A} (body body' : A -> walk) l :
  (forall b, (body b).2 <> OutOfFuel -> body' b = body b) ->
  (forall b, (body b).1 `prefix_of` (body' b).1) ->
  (for_yield body l).1 `prefix_of` (for_yield body' l).1.
Proof.
  intros Hsame Hpre. induction l as [|b l IH]; [reflexivity|].
  cbn [for_yield]. specialize (Hsame b). specialize (Hpre b).
  destruct (body b) as [out st]. cbn [fst snd] in *. destruct st.
  - rewrite Hsame by discriminate.
    destruct (for_yield body l) as [o1 s1], (for_yield body' l) as [o2 s2].
    cbn [fst] in *. apply prefix_app, IH.
  - rewrite Hsame by discriminate. reflexivity.
  - destruct (body' b) as [out' st']. cbn [fst] in *.
    destruct st'; [|exact Hpre..].
    destruct (for_yield body' l) as [o2 s2]. cbn [fst].
    apply prefix_app_r, Hpre.
Qed.

(** What a walk yielded before it ran out of fuel is the beginning of what
    it yields with more fuel. *)
Lemma traverse_fuel_prefix fuel start :
  (Finder.traverse fs self fuel start).1
    `prefix_of` (Finder.traverse fs self (S fuel) start).1.
Proof.
  revert start. induction fuel as [|fuel IH]; intros start; [apply prefix_nil|].
  rewrite (traverse_S (S fuel)), (traverse_S fuel).
  destruct (Finder.categorize_path fs self start) as [k|e]; [|reflexivity].
  destruct (matchable k); [reflexivity|].
  destruct (decide (k = directory)) as [Hk|]; [|reflexivity].
  destruct (os_listdir fs start) as [names|e]; [|reflexivity].
  apply for_yield_prefix_mono; intros b; unfold Finder.visit;
    destruct (Finder.categorize_path fs self (posixpath.join start b))
      as [k'|e']; try reflexivity;
    destruct (matchable k'); try reflexivity;
    destruct (decide (k' = directory)) as [Hk'|]; try reflexivity;
    destruct (negb (Finder.skip_sub_dirs self)); try reflexivity.
  - apply traverse_fuel_mono.
  - apply IH.
Qed.

Lemma for_yield_status {A} (body : A -> walk) l :
  (forall b, b ∈ l -> (body b).2 <> OutOfFuel) ->
  (for_yield body l).2 <> OutOfFuel.
Proof.
  induction l as [|b l IH]; intros Hbody; [discriminate|].
  cbn [for_yield]. pose proof (Hbody b ltac:(left)) as Hb.
  destruct (body b) as [out st]. cbn [snd] in Hb.
  destruct st; [|discriminate|contradiction].
  destruct (for_yield body l) as [out' st']. cbn [snd] in *.
  apply IH. intros b0 Hb0. apply Hbody. right. exact Hb0.
Qed.

(** On a directory tree of finite depth, measured by [rank], the walk
    completes with fuel above the rank of the start path. *)
Lemma traverse_terminates (rank : string -> nat) :
  (forall d names b,
     Finder.categorize_path fs self d = Ok directory ->
     os_listdir fs d = Ok names -> b ∈ names ->
     Finder.categorize_path fs self (posixpath.join d b) = Ok directory ->
     (rank (posixpath.join d b) < rank d)%nat) ->
  forall fuel start,
    (rank start < fuel)%nat ->
    (Finder.traverse fs self fuel start).2 <> OutOfFuel.
Proof.
  intros Hrank. induction fuel as [|fuel IH]; intros start Hlt; [lia|].
  cbn [Finder.traverse].
  destruct (Finder.categorize_path fs self start) as [k|e] eqn:Hk;
    [|discriminate].
  destruct (matchable k); [discriminate|].
  destruct (decide (k = directory)) as [->|]; [|discriminate].
  destruct (os_listdir fs start) as [names|e] eqn:Hnames;
    [|destruct (is_OSError e); discriminate].
  apply for_yield_status. intros b Hb.
  unfold sorted in Hb. rewrite merge_sort_Permutation in Hb.
  unfold Finder.visit.
  destruct (Finder.categorize_path fs self (posixpath.join start b))
    as [k'|e] eqn:Hk'; [|discriminate].
  destruct (matchable k'); [discriminate|].
  destruct (decide (k' = directory)) as [->|]; [|discriminate].
  destruct (negb (Finder.skip_sub_dirs self)); [|discriminate].
  apply IH. specialize (Hrank start names b Hk Hnames Hb Hk'). lia.
Qed.

(** Without recursion into sub-directories one unit of fuel is enough. *)
Lemma traverse_flat_terminates start :
  Finder.skip_sub_dirs self = true ->
  (Finder.traverse fs self 1 start).2 <> OutOfFuel.
Proof.
  intros Hflat. cbn [Finder.traverse].
  destruct (Finder.categorize_path fs self start) as [k|e]; [|discriminate].
  destruct (matchable k); [discriminate|].
  destruct (decide (k = directory)) as [Hk|]; [|discriminate].
  destruct (os_listdir fs start) as [names|e];
    [|destruct (is_OSError e); discriminate].
  apply for_yield_status. intros b _. unfold Finder.visit. rewrite Hflat.
  destruct (Finder.categorize_path fs self (posixpath.join start b))
    as [k'|e]; [|discriminate].
  destruct (matchable k'); [discriminate|].
  destruct (decide (k' = directory)); discriminate.
Qed.

(** *** Order *)

(** What a loop over [l] produces: every body runs to its end and the
    output is the concatenation of all of them, or the loop stops in the
    first body that does not finish, after the output of that body. *)
Lemma for_yield_trace {A} (body : A -> walk) l :
  ((for_yield body l).2 = Done
   /\ (for_yield body l).1 = concat (map (fun b => (body b).1) l)
   /\ Forall (fun b => (body b).2 = Done) l)
  \/ (exists done b rest,
        l = done ++ b :: rest
        /\ Forall (fun b => (body b).2 = Done) done
        /\ (body b).2 <> Done
        /\ (for_yield body l).2 = (body b).2
        /\ (for_yield body l).1
           = concat (map (fun b => (body b).1) (done ++ [b]))).
Proof.
  induction l as [|x l IH].
  - left. split; [reflexivity|]. split; [reflexivity|apply List.Forall_nil].
  - cbn [for_yield]. destruct (body x) as [out st] eqn:Hx.
    assert (st <> Done ->
      exists done b rest,
        x :: l = done ++ b :: rest
        /\ Forall (fun b => (body b).2 = Done) done
        /\ (body b).2 <> Done
        /\ st = (body b).2
        /\ out = concat (map (fun b => (body b).1) (done ++ [b]))) as Hstop.
    { intros Hst. exists [], x, l. cbn. rewrite Hx. cbn.
      rewrite app_nil_r. split; [reflexivity|].
      split; [apply List.Forall_nil|]. split; [exact Hst|].
      split; reflexivity. }
    destruct st; [|right; apply Hstop; discriminate..].
    destruct (for_yield body l) as [out' st']. cbn [fst snd] in *.
    destruct IH as [(Hst & Hout & Hall)
                   |(done & b & rest & -> & Hall & Hb & Hst & Hout)].
    + left. split; [exact Hst|]. split.
      * cbn. rewrite Hx, Hout. reflexivity.
      * constructor; [rewrite Hx; reflexivity|exact Hall].
    + right. exists (x :: done), b, rest. split; [reflexivity|].
      split; [constructor; [rewrite Hx; reflexivity|exact Hall]|].
      split; [exact Hb|]. split; [exact Hst|].
      cbn. rewrite Hx, Hout. reflexivity.
Qed.

End traversal.

(** ** The order of names *)


Section lex.
Implicit Types l : list N.

Lemma lex_leb_refl l : lex_leb l l = true.
Proof.
  induction l as [|x l IH]; [reflexivity|]. cbn [lex_leb].
  rewrite N.ltb_irrefl, N.eqb_refl. exact IH.
Qed.

Lemma lex_leb_total l1 l2 : lex_leb l1 l2 = true \/ lex_leb l2 l1 = true.
Proof.
  revert l2. induction l1 as [|x l1 IH]; intros [|y l2]; cbn [lex_leb]; auto.
  destruct (N.ltb_spec x y), (N.ltb_spec y x); auto; try lia.
  assert (x = y) as -> by lia. rewrite N.eqb_refl. apply IH.
Qed.

Lemma lex_leb_trans l1 l2 l3 :
  lex_leb l1 l2 = true -> lex_leb l2 l3 = true -> lex_leb l1 l3 = true.
Proof.
  revert l2 l3. induction l1 as [|x l1 IH]; intros [|y l2] [|z l3];
    cbn [lex_leb]; try discriminate; auto.
  destruct (N.ltb_spec x y), (N.ltb_spec y z), (N.ltb_spec x z); auto;
    try lia; destruct (N.eqb_spec x y), (N.eqb_spec y z), (N.eqb_spec x z);
    try discriminate; try lia; eauto.
Qed.

Lemma lex_leb_app l r1 r2 : lex_leb (l ++ r1) (l ++ r2) = lex_leb r1 r2.
Proof.
  induction l as [|x l IH]; [reflexivity|]. cbn [app lex_leb].
  rewrite N.ltb_irrefl, N.eqb_refl. exact IH.
Qed.

End lex.

Global Instance str_le_total : Total str_le.
Proof. intros s t. apply lex_leb_total. Qed.

Global Instance str_le_trans : Transitive str_le.
Proof. intros s t u. apply lex_leb_trans. Qed.

(** The byte-lexicographic order is the lexicographic order of the byte
    values. *)
Lemma bytes_lex_le_values s t :
  bytes_lex_le s t <-> lex_leb (byte_values s) (byte_values t) = true.
Proof.
  unfold byte_values. revert t.
  induction s as [|a s IH]; intros [|b t]; cbn [list_ascii_of_string map lex_leb].
  - split; [reflexivity|constructor].
  - split; [reflexivity|constructor].
  - split; [inversion 1|discriminate].
  - destruct (N.ltb_spec (N_of_ascii a) (N_of_ascii b)) as [Hlt|Hge].
    + split; [reflexivity|]. intros _. constructor. exact Hlt.
    + destruct (N.eqb_spec (N_of_ascii a) (N_of_ascii b)) as [Heq|Hne].
      * apply (f_equal ascii_of_N) in Heq. rewrite !ascii_N_embedding in Heq.
        subst b. rewrite <- IH. split; [|constructor; assumption].
        inversion 1; subst; [lia|assumption].
      * split; [|discriminate]. inversion 1; subst; [lia|congruence].
Qed.

Lemma byte_values_bounded s : Forall (fun b => (b < 256)%N) (byte_values s).
Proof.
  unfold byte_values. induction s as [|a s IH]; constructor; [|exact IH].
  apply N_ascii_bounded.
Qed.

(** *** UTF-8 keeps the order of code points *)

Ltac split_comparisons :=
  repeat match goal with
    | |- context [N.ltb ?a ?b] => destruct (N.ltb_spec a b)
    | |- context [N.eqb ?a ?b] => destruct (N.eqb_spec a b)
    end.

Lemma utf8_seq_not_nil s c : utf8_seq s c -> (0 < length s)%nat.
Proof. destruct 1; cbn; lia. Qed.

Lemma utf8_seq_inj s1 s2 c1 c2 :
  utf8_seq s1 c1 -> utf8_seq s2 c2 -> c1 = c2 -> s1 = s2.
Proof.
  destruct 1, 1; intros Heq; try (exfalso; lia); repeat f_equal; lia.
Qed.

Lemma utf8_seq_lt s1 s2 c1 c2 r1 r2 :
  utf8_seq s1 c1 -> utf8_seq s2 c2 -> (c1 < c2)%N ->
  lex_leb (s1 ++ r1) (s2 ++ r2) = true /\ lex_leb (s2 ++ r2) (s1 ++ r1) = false.
Proof.
  destruct 1, 1; intros Hlt; cbn [app lex_leb]; split; split_comparisons;
    try reflexivity; exfalso; lia.
Qed.

Lemma is_cont_spec b : is_cont b = true <-> (0x80 <= b <= 0xBF)%N.
Proof.
  unfold is_cont. rewrite andb_true_iff, !N.leb_le. tauto.
Qed.

Lemma lead3_ok_spec b0 b1 :
  lead3_ok b0 b1 = true <->
  ((b0 = 0xE0 /\ 0xA0 <= b1 <= 0xBF) \/ (0xE1 <= b0 <= 0xEC /\ 0x80 <= b1 <= 0xBF)
   \/ (b0 = 0xED /\ 0x80 <= b1 <= 0x9F)
   \/ (0xEE <= b0 <= 0xEF /\ 0x80 <= b1 <= 0xBF))%N.
Proof.
  unfold lead3_ok, is_cont.
  rewrite !orb_true_iff, !andb_true_iff, !N.leb_le, !N.eqb_eq. tauto.
Qed.

Lemma lead4_ok_spec b0 b1 :
  lead4_ok b0 b1 = true <->
  ((b0 = 0xF0 /\ 0x90 <= b1 <= 0xBF) \/ (0xF1 <= b0 <= 0xF3 /\ 0x80 <= b1 <= 0xBF)
   \/ (b0 = 0xF4 /\ 0x80 <= b1 <= 0x8F))%N.
Proof.
  unfold lead4_ok, is_cont.
  rewrite !orb_true_iff, !andb_true_iff, !N.leb_le, !N.eqb_eq. tauto.
Qed.

Lemma escape_is_escape b0 :
  (0x80 <= b0)%N -> (b0 < 256)%N -> is_escape (0xDC00 + b0) = true.
Proof.
  intros H1 H2. unfold is_escape. apply andb_true_iff.
  rewrite !N.leb_le. lia.
Qed.

(** One step of the decoder: the first code point is an escaped byte, or
    it is encoded by a well-formed sequence at the head of the bytes and
    decoding goes on after that sequence. *)
Lemma decode_step b0 r0 :
  (b0 < 256)%N ->
  exists c ds,
    utf8_surrogateescape (b0 :: r0) = c :: ds
    /\ (is_escape c = true
        \/ exists s rest,
             b0 :: r0 = s ++ rest /\ ds = utf8_surrogateescape rest
             /\ utf8_seq s c).
Proof.
  intros Hb0. cbn [utf8_surrogateescape].
  destruct (N.ltb_spec b0 0x80) as [Hlow|Hhigh].
  { eexists _, _. split; [reflexivity|]. right. exists [b0], r0.
    repeat split. constructor. exact Hlow. }
  assert (exists c ds,
    (0xDC00 + b0)%N :: utf8_surrogateescape r0 = c :: ds
    /\ (is_escape c = true
        \/ exists s rest,
             b0 :: r0 = s ++ rest /\ ds = utf8_surrogateescape rest
             /\ utf8_seq s c)) as Hesc.
  { eexists _, _. split; [reflexivity|]. left.
    apply escape_is_escape; assumption. }
  destruct r0 as [|b1 r1]; [exact Hesc|].
  destruct ((0xC2 <=? b0) && (b0 <=? 0xDF))%N eqn:H2.
  { destruct (is_cont b1) eqn:Hc1; [|exact Hesc].
    eexists _, _. split; [reflexivity|]. right. exists [b0; b1], r1.
    repeat split. apply andb_true_iff in H2 as [? ?].
    constructor; [split; apply N.leb_le; assumption|].
    apply is_cont_spec, Hc1. }
  destruct r1 as [|b2 r2]; [exact Hesc|].
  destruct (lead3_ok b0 b1) eqn:H3.
  { destruct (is_cont b2) eqn:Hc2; [|exact Hesc].
    eexists _, _. split; [reflexivity|]. right. exists [b0; b1; b2], r2.
    repeat split. constructor; [apply lead3_ok_spec, H3|apply is_cont_spec, Hc2]. }
  destruct r2 as [|b3 r3]; [exact Hesc|].
  destruct (lead4_ok b0 b1 && is_cont b2 && is_cont b3) eqn:H4; [|exact Hesc].
  apply andb_true_iff in H4 as [[H4 Hc2]%andb_true_iff Hc3].
  eexists _, _. split; [reflexivity|]. right. exists [b0; b1; b2; b3], r3.
  repeat split.
  constructor; [apply lead4_ok_spec, H4|apply is_cont_spec; assumption..].
Qed.

(** On bytes that decode without escape, comparing the bytes and comparing
    the code points give the same answer. *)
Lemma utf8_order bs bt :
  Forall (fun b => (b < 256)%N) bs -> Forall (fun b => (b < 256)%N) bt ->
  Forall (fun c => is_escape c = false) (utf8_surrogateescape bs) ->
  Forall (fun c => is_escape c = false) (utf8_surrogateescape bt) ->
  lex_leb bs bt = lex_leb (utf8_surrogateescape bs) (utf8_surrogateescape bt).
Proof.
  remember (length bs) as n eqn:Hn. revert bs bt Hn.
  induction n as [n IH] using lt_wf_ind. intros bs bt Hn Hbs Hbt Hvs Hvt.
  destruct bs as [|b0 r0]; [reflexivity|].
  destruct (decode_step b0 r0) as (c1 & ds1 & Hd1 & Hs1);
    [apply Forall_cons in Hbs; tauto|].
  rewrite Hd1 in Hvs |- *. apply Forall_cons in Hvs as [Hc1 Hvs].
  destruct Hs1 as [Hs1|(s1 & rest1 & Hsplit1 & -> & Hseq1)]; [congruence|].
  destruct bt as [|b0' r0']; [reflexivity|].
  destruct (decode_step b0' r0') as (c2 & ds2 & Hd2 & Hs2);
    [apply Forall_cons in Hbt; tauto|].
  rewrite Hd2 in Hvt |- *. apply Forall_cons in Hvt as [Hc2 Hvt].
  destruct Hs2 as [Hs2|(s2 & rest2 & Hsplit2 & -> & Hseq2)]; [congruence|].
  rewrite Hsplit1, Hsplit2. cbn [lex_leb].
  destruct (N.lt_trichotomy c1 c2) as [Hlt|[Heq|Hgt]].
  - destruct (utf8_seq_lt s1 s2 c1 c2 rest1 rest2 Hseq1 Hseq2 Hlt) as [-> _].
    destruct (N.ltb_spec c1 c2); [reflexivity|lia].
  - subst c2. rewrite (utf8_seq_inj s2 s1 c1 c1 Hseq2 Hseq1 eq_refl).
    rewrite lex_leb_app, N.ltb_irrefl, N.eqb_refl.
    pose proof (utf8_seq_not_nil _ _ Hseq1) as Hlen.
    rewrite Hsplit1 in Hn, Hbs. rewrite Hsplit2 in Hbt.
    rewrite length_app in Hn.
    apply Forall_app in Hbs as [_ Hbs]. apply Forall_app in Hbt as [_ Hbt].
    eapply (IH (length rest1)); [lia|reflexivity|assumption..].
  - destruct (utf8_seq_lt s2 s1 c2 c1 rest2 rest1 Hseq2 Hseq1 Hgt) as [_ ->].
    destruct (N.ltb_spec c1 c2); [lia|].
    destruct (N.eqb_spec c1 c2); [lia|reflexivity].
Qed.

(** The decoder reads a well-formed sequence as its code point. *)
Lemma decode_seq s c rest :
  utf8_seq s c ->
  utf8_surrogateescape (s ++ rest) = c :: utf8_surrogateescape rest.
Proof.
  destruct 1 as [b0 H0|b0 b1 H0 H1|b0 b1 b2 H01 H2|b0 b1 b2 b3 H01 H2 H3];
    cbn [app utf8_surrogateescape].
  - destruct (N.ltb_spec b0 0x80); [reflexivity|lia].
  - destruct (N.ltb_spec b0 0x80); [lia|].
    assert (((0xC2 <=? b0) && (b0 <=? 0xDF))%N = true) as ->
      by (apply andb_true_iff; rewrite !N.leb_le; lia).
    assert (is_cont b1 = true) as -> by (apply is_cont_spec; lia).
    reflexivity.
  - destruct (N.ltb_spec b0 0x80); [lia|].
    assert (((0xC2 <=? b0) && (b0 <=? 0xDF))%N = false) as ->
      by (apply andb_false_iff; rewrite !N.leb_gt; lia).
    assert (lead3_ok b0 b1 = true) as -> by (apply lead3_ok_spec; exact H01).
    assert (is_cont b2 = true) as -> by (apply is_cont_spec; lia).
    reflexivity.
  - destruct (N.ltb_spec b0 0x80); [lia|].
    assert (((0xC2 <=? b0) && (b0 <=? 0xDF))%N = false) as ->
      by (apply andb_false_iff; rewrite !N.leb_gt; lia).
    assert (lead3_ok b0 b1 = false) as ->.
    { destruct (lead3_ok b0 b1) eqn:E; [|reflexivity].
      apply lead3_ok_spec in E. lia. }
    assert (lead4_ok b0 b1 = true) as -> by (apply lead4_ok_spec; exact H01).
    assert (is_cont b2 = true) as -> by (apply is_cont_spec; lia).
    assert (is_cont b3 = true) as -> by (apply is_cont_spec; lia).
    reflexivity.
Qed.

Lemma utf8_seq_not_escape s c : utf8_seq s c -> is_escape c = false.
Proof.
  intros H. unfold is_escape. apply andb_false_iff.
  rewrite !N.leb_gt. destruct H; lia.
Qed.

Lemma utf8_seq_bounded s c :
  utf8_seq s c -> Forall (fun b => (b < 256)%N) s.
Proof.
  destruct 1; repeat (apply List.Forall_cons; [lia|]); apply List.Forall_nil.
Qed.

(** Well-formed UTF-8 is what decodes without escape. *)
Lemma utf8_wf_decode bs :
  Forall (fun b => (b < 256)%N) bs ->
  utf8_wf bs <-> Forall (fun c => is_escape c = false) (utf8_surrogateescape bs).
Proof.
  intros Hbs. split.
  - induction 1 as [|s c rest Hseq _ IH]; [apply List.Forall_nil|].
    apply Forall_app in Hbs as [_ Hrest].
    rewrite (decode_seq s c rest Hseq).
    apply List.Forall_cons; [eapply utf8_seq_not_escape, Hseq|apply IH, Hrest].
  - remember (length bs) as n eqn:Hn. revert bs Hn Hbs.
    induction n as [n IH] using lt_wf_ind. intros bs Hn Hbs Hdec.
    destruct bs as [|b0 r0]; [apply utf8_wf_nil|].
    destruct (decode_step b0 r0) as (c & ds & Hd & Hs);
      [apply Forall_cons in Hbs; tauto|].
    rewrite Hd in Hdec. apply Forall_cons in Hdec as [Hc Hds].
    destruct Hs as [Hs|(s & rest & Hsplit & -> & Hseq)]; [congruence|].
    rewrite Hsplit in Hn, Hbs |- *. rewrite length_app in Hn.
    apply Forall_app in Hbs as [_ Hrest].
    pose proof (utf8_seq_not_nil _ _ Hseq) as Hlen.
    apply (utf8_wf_app s c rest Hseq).
    apply (IH (length rest)); [lia|reflexivity|exact Hrest|exact Hds].
Qed.

(** A name is well-formed UTF-8 when [os.fsdecode] needs no escape. *)
Lemma utf8_name_decode s :
  utf8_name s <-> Forall (fun c => is_escape c = false) (fsdecode s).
Proof. apply utf8_wf_decode, byte_values_bounded. Qed.

(** For names that are well-formed UTF-8 the order of [str] values is the
    byte-lexicographic order. *)
Lemma str_le_utf8 s t :
  utf8_name s -> utf8_name t -> (str_le s t <-> bytes_lex_le s t).
Proof.
  intros Hs Ht. unfold str_le, fsdecode.
  rewrite bytes_lex_le_values, (utf8_order (byte_values s) (byte_values t));
    [reflexivity | apply byte_values_bounded | apply byte_values_bounded
    | apply utf8_name_decode, Hs | apply utf8_name_decode, Ht].
Qed.

(** [sorted] gives the names in the order of [str] values. *)
Lemma sorted_spec names :
  StronglySorted str_le (sorted names) /\ sorted names ≡ₚ names.
Proof.
  split; [apply (StronglySorted_merge_sort str_le)|apply merge_sort_Permutation].
Qed.

Lemma StronglySorted_impl_in {A} (R R' : relation A) l :
  (forall x y, x ∈ l -> y ∈ l -> R x y -> R' x y) ->
  StronglySorted R l -> StronglySorted R' l.
Proof.
  intros HR H. induction H as [|x l Hs IH Hx]; constructor.
  - apply IH. intros y z Hy Hz. apply HR; apply list_elem_of_further; assumption.
  - rewrite Forall_forall in Hx |- *. intros y Hy.
    apply HR; [apply list_elem_of_here|apply list_elem_of_further, Hy|].
    apply Hx, Hy.
Qed.

(** Names that are all well-formed UTF-8 come out in byte-lexicographic
    order. *)
Lemma sorted_utf8 names :
  Forall utf8_name names -> StronglySorted bytes_lex_le (sorted names).
Proof.
  intros Hu. destruct (sorted_spec names) as [Hs Hp].
  assert (Forall utf8_name (sorted names)) as Hu'.
  { rewrite Forall_forall in Hu |- *. intros x Hx. apply Hu.
    rewrite <- Hp. exact Hx. }
  rewrite Forall_forall in Hu'.
  eapply StronglySorted_impl_in; [|exact Hs].
  intros x y Hx Hy. apply str_le_utf8; auto.
Qed.

(** C6, as stated, fails: names are sorted as [str] values, and a name
    that is not UTF-8 is compared through its escaped bytes.  In a
    directory holding the names [F0 9F 98 80] and [FF], the second is
    yielded first, although its bytes come last. *)
Lemma raw_names_not_in_byte_order :
  ~ (Finder.categorize_path Fixture.raw_fs Fixture.recursive "u" = Ok directory ->
     os_listdir Fixture.raw_fs "u" = Ok [Fixture.name_emoji; Fixture.name_ff] ->
     StronglySorted bytes_lex_le
       (map (fun x => basename_of x.1)
          (Finder.traverse Fixture.raw_fs Fixture.recursive 2 "u").1)).
Proof.
  intros H. specialize (H eq_refl eq_refl).
  change (StronglySorted bytes_lex_le [Fixture.name_ff; Fixture.name_emoji]) in H.
  inversion H as [|? ? _ Hall]; subst.
  inversion Hall as [|? ? Hle _]; subst.
  inversion Hle; subst. cbn in *. lia.
Qed.

(** C6, amended. For a directory, the walk is the loop over the children
    taken in the order of their basenames as [str] values, which is the
    byte-lexicographic order when the names of the directory are
    well-formed UTF-8.  Each child contributes itself when it is matchable,
    the whole walk of its subtree when it is a directory that is recursed
    into, and nothing otherwise; so the matchable children come in sorted
    order at every level and the entries of one subtree are complete before
    the next sibling starts.  The output is the concatenation of the
    contributions of all the children, unless a child does not finish: then
    it is the contributions up to and including that child, and the walk
    stops as that child did. *)
Theorem traverse_sorted_depth_first fs self fuel startpath names :
  Finder.categorize_path fs self startpath = Ok directory ->
  os_listdir fs startpath = Ok names ->
  let body := Finder.visit fs self (Finder.traverse fs self fuel) startpath in
  let w := Finder.traverse fs self (S fuel) startpath in
  StronglySorted str_le (sorted names)
  /\ sorted names ≡ₚ names
  /\ (Forall utf8_name names -> StronglySorted bytes_lex_le (sorted names))
  /\ ((w.2 = Done
       /\ w.1 = concat (map (fun b => (body b).1) (sorted names))
       /\ Forall (fun b => (body b).2 = Done) (sorted names))
      \/ (exists done b rest,
            sorted names = done ++ b :: rest
            /\ Forall (fun b => (body b).2 = Done) done
            /\ (body b).2 <> Done
            /\ w.2 = (body b).2
            /\ w.1 = concat (map (fun b => (body b).1) (done ++ [b]))))
  /\ (forall b,
        body b
        = match Finder.categorize_path fs self (posixpath.join startpath b) with
          | Ok k =>
              if matchable k then ([(posixpath.join startpath b, k)], Done)
              else if bool_decide (k = directory)
                      && negb (Finder.skip_sub_dirs self)
              then Finder.traverse fs self fuel (posixpath.join startpath b)
              else ([], Done)
          | Raise e => ([], Raised e)
          end).
Proof.
  intros Hdir Hnames body w.
  split; [apply sorted_spec|]. split; [apply sorted_spec|].
  split; [apply sorted_utf8|]. split.
  - subst w. rewrite traverse_S, Hdir, Hnames. cbn [matchable].
    rewrite decide_True by reflexivity. apply for_yield_trace.
  - intros b. subst body. unfold Finder.visit.
    destruct (Finder.categorize_path fs self (posixpath.join startpath b))
      as [k|e]; [|reflexivity].
    destruct (matchable k); [reflexivity|].
    destruct (decide (k = directory)) as [->|Hne].
    + rewrite bool_decide_eq_true_2 by reflexivity.
      destruct (Finder.skip_sub_dirs self); reflexivity.
    + rewrite bool_decide_eq_false_2 by exact Hne. reflexivity.
Qed.

Lemma traverse_sorted_depth_first_witness :
  Finder.categorize_path Fixture.fs Fixture.recursive "t" = Ok directory
  /\ os_listdir Fixture.fs "t" = Ok ["z.txt"; "d"; ".h"; "e"; "empty"]
  /\ Forall utf8_name ["z.txt"; "d"; ".h"; "e"; "empty"]
  /\ StronglySorted bytes_lex_le (sorted ["z.txt"; "d"; ".h"; "e"; "empty"])
  /\ sorted ["z.txt"; "d"; ".h"; "e"; "empty"] = [".h"; "d"; "e"; "empty"; "z.txt"]
  /\ Finder.traverse Fixture.fs Fixture.recursive 3 "t"
     = ([("t/.h/k.txt", text); ("t/.h/sub/a", text); ("t/d/a.txt", text);
         ("t/d/b.bin", binary); ("t/d/c.gz", gzip); ("t/empty", text);
         ("t/z.txt", text)], Done).
Proof.
  assert (Forall utf8_name ["z.txt"; "d"; ".h"; "e"; "empty"]) as Hu.
  { repeat (apply List.Forall_cons;
              [apply utf8_name_decode; vm_compute; repeat constructor|]).
    apply List.Forall_nil. }
  split; [reflexivity|]. split; [reflexivity|]. split; [exact Hu|].
  split; [|split; reflexivity].
  apply (traverse_sorted_depth_first Fixture.fs Fixture.recursive 2 "t"
           ["z.txt"; "d"; ".h"; "e"; "empty"]); [reflexivity|reflexivity|exact Hu].
Defined.

(** ** Hidden directories *)

Lemma mkfs_wf_names tbl :
  forallb Fixture.entry_valid tbl = true -> wf_names (Fixture.mkfs tbl).
Proof.
  intros Hvalid d names b. cbn [os_listdir Fixture.mkfs].
  induction tbl as [|[q [l n]] tbl IH]; cbn [Fixture.find_entry];
    [discriminate|].
  cbn [forallb] in Hvalid. apply andb_true_iff in Hvalid as [Hq Htbl].
  destruct (String.eqb d q); [|exact (IH Htbl)].
  destruct n as [raw unzipped|children]; [discriminate|].
  intros [= ->] Hb. cbn [Fixture.entry_valid] in Hq.
  rewrite forallb_forall in Hq. apply list_elem_of_In in Hb.
  specialize (Hq b Hb). unfold Fixture.valid_nameb in Hq.
  apply andb_true_iff in Hq as [Hne Hsep]. split.
  - intros ->. discriminate.
  - apply Z.eqb_eq, Hsep.
Qed.

Lemma fixture_wf_names : wf_names Fixture.fs.
Proof. apply mkfs_wf_names. reflexivity. Qed.

Section hidden.
Context (fs : filesystem) (self : Finder.t).




Lemma route_start_directory start bs d :
  route fs self start bs d ->
  Finder.categorize_path fs self start = Ok directory.
Proof. induction 1; assumption. Qed.

Lemma route_chain start bs d :
  wf_names fs -> route fs self start bs d ->
  d = chain start bs
  /\ Forall valid_name bs
  /\ forall n, (0 < n <= length bs)%nat ->
       Finder.categorize_path fs self (chain start (take n bs)) = Ok directory.
Proof.
  intros Hwf.
  induction 1 as [Hdir|bs d names b _ (-> & Hbs & Hdirs) Hl Hb _ Hdir].
  - split; [reflexivity|]. split; [constructor|]. cbn. lia.
  - split; [symmetry; apply chain_snoc|]. split.
    + apply Forall_app. split; [exact Hbs|].
      constructor; [eapply Hwf; eassumption | constructor].
    + intros n Hn. rewrite length_app in Hn. cbn in Hn.
      destruct (decide (n <= length bs)%nat) as [Hle|Hgt].
      * rewrite take_app_le by exact Hle. apply Hdirs. lia.
      * rewrite take_ge by (rewrite length_app; cbn; lia).
        rewrite chain_snoc. exact Hdir.
Qed.

End hidden.




(** ** Skipped extensions *)

Lemma partition_fold (l : list string) (simple : gset string)
    (endswith : list string) (ext : string) :
  let r := foldl (fun '(simple, endswith) ext =>
                    if String.eqb (posixpath.splitext ("foo.bar" +:+ ext)).2 ext
                    then ({[ ext ]} ∪ simple, endswith)
                    else (simple, endswith ++ [ext]))
                 (simple, endswith) l in
  (ext ∈ r.1 <-> ext ∈ simple \/ (ext ∈ l /\ single_suffix ext))
  /\ (ext ∈ r.2 <-> ext ∈ endswith \/ (ext ∈ l /\ ~ single_suffix ext)).
Proof.
  revert simple endswith. induction l as [|x l IH]; intros simple endswith.
  - cbn. split; split; try tauto; intros [H|[H _]]; try exact H; inversion H.
  - cbn [foldl]. unfold single_suffix in *.
    destruct (String.eqb_spec (posixpath.splitext ("foo.bar" +:+ x)).2 x)
      as [Hx|Hx].
    + destruct (IH ({[ x ]} ∪ simple) endswith) as [IH1 IH2]. cbn zeta in *.
      rewrite IH1, IH2. rewrite elem_of_union, elem_of_singleton, !elem_of_cons.
      split; split; intros H; try tauto.
      * destruct H as [[->|H]|H]; tauto.
      * destruct H as [H|[[->|H] Hn]]; tauto.
    + destruct (IH simple (endswith ++ [x])) as [IH1 IH2]. cbn zeta in *.
      rewrite IH1, IH2. rewrite elem_of_app, list_elem_of_singleton, !elem_of_cons.
      split; split; intros H; try tauto.
      * destruct H as [H|[[->|H] Hs]]; tauto.
      * destruct H as [[H| ->]|H]; tauto.
Qed.

Lemma partition_exts_spec skip_exts ext :
  (ext ∈ (Finder.partition_exts skip_exts).1
   <-> ext ∈ skip_exts /\ single_suffix ext)
  /\ (ext ∈ (Finder.partition_exts skip_exts).2
      <-> ext ∈ skip_exts /\ ~ single_suffix ext).
Proof.
  unfold Finder.partition_exts.
  destruct (partition_fold (elements skip_exts) ∅ [] ext) as [H1 H2].
  cbn zeta in *. rewrite H1, H2, elem_of_elements. split; split.
  - intros [H|H]; [inversion H|exact H].
  - auto.
  - intros [H|H]; [inversion H|exact H].
  - auto.
Qed.

Lemma partition_exts_gz :
  Finder.partition_exts {[ ".gz" ]} = ({[ ".gz" ]} ∪ ∅, []).
Proof. unfold Finder.partition_exts. rewrite elements_singleton. reflexivity. Qed.

Lemma partition_exts_tar_gz :
  Finder.partition_exts {[ ".tar.gz" ]} = (∅, [".tar.gz"]).
Proof. unfold Finder.partition_exts. rewrite elements_singleton. reflexivity. Qed.

Lemma partition_exts_empty : Finder.partition_exts ∅ = (∅, []).
Proof. unfold Finder.partition_exts. rewrite elements_empty. reflexivity. Qed.

Lemma c_gz_not_tar_gz dir : pystr.endswith (dir +:+ "c.gz") ".tar.gz" = false.
Proof.
  destruct (pystr.endswith (dir +:+ "c.gz") ".tar.gz") eqn:E; [|reflexivity].
  apply (endswith_tail _ _ 3) in E. rewrite endswith_app in E by (cbn; lia).
  discriminate.
Qed.

(** C8. [__init__] splits the configured extensions into the set of those
    for which splitting ["foo.bar" + ext] yields exactly [ext] and the list
    of the others.  So with the skip set [{".gz"}] a file named [c.gz] is
    classified [skip]; with [{".tar.gz"}] the file [c.gz] is classified as
    with no skip set at all, while [x.tar.gz] is classified [skip]. *)
Theorem skip_extension_partition fs ssd shd shf sd sld slf bb dir :
  (forall exts ext,
     (ext ∈ Finder.skip_exts_simple (Finder.__init__ ssd shd shf sd exts sld slf bb)
      <-> ext ∈ exts /\ single_suffix ext)
     /\ (ext ∈ Finder.skip_exts_endswith (Finder.__init__ ssd shd shf sd exts sld slf bb)
         <-> ext ∈ exts /\ ~ single_suffix ext))
  /\ (slf && os_path_islink fs (dir +:+ "c.gz") = false ->
      Finder.categorize_file fs
        (Finder.__init__ ssd shd shf sd {[ ".gz" ]} sld slf bb) (dir +:+ "c.gz")
      = Ok skip)
  /\ Finder.categorize_file fs
       (Finder.__init__ ssd shd shf sd {[ ".tar.gz" ]} sld slf bb) (dir +:+ "c.gz")
     = Finder.categorize_file fs
         (Finder.__init__ ssd shd shf sd ∅ sld slf bb) (dir +:+ "c.gz")
  /\ (slf && os_path_islink fs (dir +:+ "x.tar.gz") = false ->
      Finder.categorize_file fs
        (Finder.__init__ ssd shd shf sd {[ ".tar.gz" ]} sld slf bb)
        (dir +:+ "x.tar.gz")
      = Ok skip).
Proof.
  split; [|split; [|split]].
  - intros exts ext. apply partition_exts_spec.
  - intros Hlink. unfold Finder.categorize_file, Finder.__init__.
    cbn [Finder.skip_hidden_files Finder.skip_symlink_files
         Finder.skip_exts_simple Finder.skip_exts_endswith].
    rewrite Hlink, partition_exts_gz. unfold posixpath.normcase.
    rewrite (splitext_app dir "c.gz") by (try reflexivity; cbn; lia).
    change (pystr.drop _ "c.gz") with ".gz".
    rewrite bool_decide_eq_true_2 by set_solver.
    destruct (shf && _); reflexivity.
  - unfold Finder.categorize_file, Finder._is_gzipped_text,
      Finder._is_binary_file, Finder.__init__.
    cbn [Finder.skip_hidden_files Finder.skip_symlink_files Finder.binary_bytes
         Finder.skip_exts_simple Finder.skip_exts_endswith].
    rewrite partition_exts_tar_gz, partition_exts_empty.
    cbn [fst snd existsb]. unfold posixpath.normcase.
    rewrite c_gz_not_tar_gz. reflexivity.
  - intros Hlink. unfold Finder.categorize_file, Finder.__init__.
    cbn [Finder.skip_hidden_files Finder.skip_symlink_files
         Finder.skip_exts_simple Finder.skip_exts_endswith].
    rewrite Hlink, partition_exts_tar_gz. unfold posixpath.normcase.
    cbn [fst snd existsb].
    rewrite (endswith_app dir "x.tar.gz" ".tar.gz") by (cbn; lia).
    replace (pystr.endswith "x.tar.gz" ".tar.gz") with true by reflexivity.
    destruct (shf && _); [reflexivity|].
    destruct (bool_decide _ || _); reflexivity.
Qed.

Lemma skip_extension_partition_witness :
  Finder.categorize_file Fixture.fs
    (Finder.__init__ true false false ∅ {[ ".gz" ]} true true 4096) "c.gz"
  = Ok skip
  /\ Finder.categorize_file Fixture.fs
       (Finder.__init__ true false false ∅ {[ ".tar.gz" ]} true true 4096) "x.tar.gz"
     = Ok skip
  /\ Finder.categorize_file Fixture.fs
       (Finder.__init__ true false false ∅ {[ ".tar.gz" ]} true true 4096) "c.gz"
     = Finder.categorize_file Fixture.fs
         (Finder.__init__ true false false ∅ ∅ true true 4096) "c.gz"
  /\ Finder.categorize_file Fixture.fs
       (Finder.__init__ true false false ∅ ∅ true true 4096) "c.gz"
     = Ok gzip.
Proof.
  pose proof (skip_extension_partition Fixture.fs true false false ∅ true true
                4096 "") as (_ & Hgz & Htar & Hx).
  split; [apply Hgz; reflexivity|]. split; [apply Hx; reflexivity|].
  split; [exact Htar|]. vm_compute. reflexivity.
Defined.

(** * Further properties *)

(** ** finder.py: errors *)

Section finder_errors.
Context (fs : filesystem) (self : Finder.t).

Lemma try_except_raises {A} (body : result A) C (a : A) e :
  try_except body C (Ok a) = Raise e -> body = Raise e /\ C e = false.
Proof.
  destruct body as [x|e']; cbn [try_except]; [discriminate|].
  destruct (C e') eqn:HC; [discriminate|]. intros [= ->]. auto.
Qed.

Lemma is_binary_file_raises f e :
  Finder._is_binary_file self f = Raise e -> e = UnboundLocalError.
Proof.
  destruct (f_read f (Finder.binary_bytes self)) as [buf|e0] eqn:Hread.
  - rewrite (is_binary_file_read_ok _ _ _ Hread). discriminate.
  - rewrite (is_binary_file_read_raises _ _ _ Hread). congruence.
Qed.

Lemma is_gzipped_text_raises filename e :
  os_errors_only fs ->
  Finder._is_gzipped_text fs self filename = Raise e ->
  is_OSError e = true \/ e = UnboundLocalError.
Proof.
  intros (_ & _ & Hopen & Hgz & Hread). unfold Finder._is_gzipped_text.
  destruct (open_rb fs filename) as [f|e0] eqn:Hf; cbn [bind];
    [|intros [= ->]; left; eapply Hopen, Hf].
  destruct (f_read f 2) as [marker|e0] eqn:Hm; cbn [bind];
    [|intros [= ->]; left; eapply Hread; eassumption].
  destruct (bool_decide (marker = GZIP_MAGIC)); [|discriminate].
  destruct (gzip_open fs filename) as [g|e0] eqn:Hg; cbn [bind];
    [|intros [= ->]; left; eapply Hgz, Hg].
  destruct (Finder._is_binary_file self g) as [b|e0] eqn:Hb; cbn; [discriminate|].
  apply is_binary_file_raises in Hb as ->. cbn. intros [= <-]. right. reflexivity.
Qed.

Lemma categorize_file_raises file_path e :
  os_errors_only fs ->
  Finder.categorize_file fs self file_path = Raise e -> e = UnboundLocalError.
Proof.
  intros Hfs. unfold Finder.categorize_file.
  repeat match goal with
    | |- context [if ?c then Ok skip else _] => destruct c; [discriminate|]
    | |- context [if ?c then Ok link else _] => destruct c; [discriminate|]
    end.
  intros [Hbody Hnot]%try_except_raises.
  destruct (open_rb fs file_path) as [f|e0] eqn:Hf; cbn [bind] in Hbody.
  2:{ injection Hbody as ->. destruct Hfs as (_ & _ & Hopen & _).
      rewrite (Hopen _ _ Hf) in Hnot. discriminate. }
  destruct (Finder._is_binary_file self f) as [[]|e0] eqn:Hb; cbn [bind] in Hbody.
  - destruct (Finder._is_gzipped_text fs self file_path) as [[]|e0] eqn:Hg;
      cbn [bind] in Hbody; try discriminate.
    injection Hbody as ->.
    destruct (is_gzipped_text_raises _ _ Hfs Hg) as [Hos|Heq]; [|exact Heq].
    rewrite Hos in Hnot. discriminate.
  - discriminate.
  - injection Hbody as ->. eapply is_binary_file_raises, Hb.
Qed.

Lemma categorize_path_raises path e :
  Finder.categorize_path fs self path = Raise e -> is_OSError e = false.
Proof. unfold Finder.categorize_path. intros H. apply try_except_raises in H. tauto. Qed.

Lemma categorize_path_raises_only path e :
  os_errors_only fs ->
  Finder.categorize_path fs self path = Raise e -> e = UnboundLocalError.
Proof.
  intros Hfs. unfold Finder.categorize_path.
  intros [Hbody Hnot]%try_except_raises.
  destruct (os_stat fs path) as [st|e0] eqn:Hst; cbn [bind] in Hbody.
  2:{ injection Hbody as ->. destruct Hfs as (Hstat & _).
      rewrite (Hstat _ _ Hst) in Hnot. discriminate. }
  destruct (S_ISREG (st_mode st)).
  - eapply categorize_file_raises; eassumption.
  - destruct (S_ISDIR (st_mode st)); discriminate.
Qed.

Lemma for_yield_raised {A} (body : A -> walk) l e :
  (for_yield body l).2 = Raised e -> exists b, b ∈ l /\ (body b).2 = Raised e.
Proof.
  induction l as [|b l IH]; cbn [for_yield]; [discriminate|].
  destruct (body b) as [out st] eqn:Hb. destruct st.
  - destruct (for_yield body l) as [out' st']. cbn [snd] in *.
    intros H. destruct (IH H) as (b0 & Hin & Hb0). exists b0.
    split; [right|]; assumption.
  - cbn [snd]. intros [= ->]. exists b. rewrite Hb. split; [left|reflexivity].
  - discriminate.
Qed.

(** An exception that escapes from a walk was raised by the classification
    of some path or, not being an [OSError], by the listing of one. *)
Lemma traverse_raised fuel start e :
  (Finder.traverse fs self fuel start).2 = Raised e ->
  (exists p, Finder.categorize_path fs self p = Raise e)
  \/ (exists p, os_listdir fs p = Raise e /\ is_OSError e = false).
Proof.
  revert start. induction fuel as [|fuel IH]; intros start; [discriminate|].
  rewrite traverse_S.
  destruct (Finder.categorize_path fs self start) as [k|e0] eqn:Hk.
  2:{ intros [= ->]. left. eauto. }
  destruct (matchable k); [discriminate|].
  destruct (decide (k = directory)) as [Hdir|]; [|discriminate].
  destruct (os_listdir fs start) as [names|e0] eqn:Hnames.
  2:{ destruct (is_OSError e0) eqn:Hos; [discriminate|].
      intros [= ->]. right. eauto. }
  intros (b & _ & Hb)%for_yield_raised. unfold Finder.visit in Hb.
  destruct (Finder.categorize_path fs self (posixpath.join start b))
    as [k'|e0] eqn:Hk'.
  2:{ injection Hb as ->. left. eauto. }
  destruct (matchable k'); [discriminate|].
  destruct (decide (k' = directory)) as [Hdir'|]; [|discriminate].
  destruct (negb (Finder.skip_sub_dirs self)); [|discriminate].
  eapply IH, Hb.
Qed.

End finder_errors.

(** X1. No filesystem error escapes from a walk: an exception raised by
    [traverse] is never an [OSError] (nor an [IOError]). *)
Theorem traverse_never_raises_OSError fs self fuel startpath e :
  (Finder.traverse fs self fuel startpath).2 = Raised e ->
  is_OSError e = false.
Proof.
  intros [[p Hp]|[p [_ Hp]]]%traverse_raised; [|exact Hp].
  eapply categorize_path_raises, Hp.
Qed.

Lemma traverse_never_raises_OSError_witness :
  (Finder.traverse Fixture.fs Finder.default 1 "bad.gz").2
    = Raised UnboundLocalError
  /\ is_OSError UnboundLocalError = false.
Proof.
  split; [reflexivity|].
  apply (traverse_never_raises_OSError Fixture.fs Finder.default 1 "bad.gz").
  reflexivity.
Defined.

Lemma fixture_os_errors_only tbl : os_errors_only (Fixture.mkfs tbl).
Proof.
  unfold os_errors_only, Fixture.mkfs.
  cbn [os_stat os_listdir open_rb gzip_open].
  split; [|split; [|split; [|split]]].
  - intros p e. destruct (Fixture.find_entry tbl p) as [[l [raw unz|cs]]|];
      [discriminate..|]. intros [= <-]. reflexivity.
  - intros p e. destruct (Fixture.find_entry tbl p) as [[l [raw unz|cs]]|];
      try discriminate; intros [= <-]; reflexivity.
  - intros p e. destruct (Fixture.find_entry tbl p) as [[l [raw unz|cs]]|];
      try discriminate; intros [= <-]; reflexivity.
  - intros p e. destruct (Fixture.find_entry tbl p) as [[l [raw unz|cs]]|];
      try discriminate; intros [= <-]; reflexivity.
  - intros p f e. destruct (Fixture.find_entry tbl p) as [[l [raw unz|cs]]|];
      try discriminate. intros [= <-]. discriminate.
Qed.

(** X2. When the system calls fail with [OSError] only, the one exception
    that can escape from a walk is the [UnboundLocalError] of the binary
    test. *)
Theorem only_probe_failure_escapes fs self fuel startpath e :
  os_errors_only fs ->
  (Finder.traverse fs self fuel startpath).2 = Raised e ->
  e = UnboundLocalError.
Proof.
  intros Hfs [[p Hp]|[p [Hl Hp]]]%traverse_raised.
  - eapply categorize_path_raises_only; eassumption.
  - destruct Hfs as (_ & Hlist & _). rewrite (Hlist _ _ Hl) in Hp. discriminate.
Qed.

Lemma only_probe_failure_escapes_witness :
  os_errors_only Fixture.fs
  /\ (Finder.traverse Fixture.fs Finder.default 1 "bad.gz").2
     = Raised UnboundLocalError
  /\ UnboundLocalError = UnboundLocalError.
Proof.
  split; [apply fixture_os_errors_only|]. split; [reflexivity|].
  apply (only_probe_failure_escapes Fixture.fs Finder.default 1 "bad.gz"
           UnboundLocalError);
    [apply fixture_os_errors_only | reflexivity].
Defined.

(** ** finder.py: what is classified how *)

Lemma categorize_directory_kinds fs self dir_path :
  matchable (Finder.categorize_directory fs self dir_path) = false.
Proof.
  unfold Finder.categorize_directory.
  repeat match goal with |- context [if ?c then _ else _] => destruct c end;
    reflexivity.
Qed.

Lemma categorize_path_matchable fs self path k :
  Finder.categorize_path fs self path = Ok k -> matchable k = true ->
  exists st, os_stat fs path = Ok st /\ S_ISREG (st_mode st) = true.
Proof.
  unfold Finder.categorize_path. intros H Hk.
  destruct (os_stat fs path) as [st|e]; cbn [bind try_except] in H.
  2:{ destruct (is_OSError e); [|discriminate]. injection H as <-. discriminate. }
  exists st. split; [reflexivity|].
  destruct (S_ISREG (st_mode st)); [reflexivity|].
  destruct (S_ISDIR (st_mode st)); cbn [try_except] in H; injection H as <-.
  - rewrite categorize_directory_kinds in Hk. discriminate.
  - discriminate.
Qed.

(** X3. Whatever the configuration, every path yielded by [traverse] is
    one that [os.stat] reports as a regular file: directories, devices and
    paths that cannot be stat'ed are never yielded. *)
Theorem yielded_are_regular_files fs self fuel startpath p k :
  (p, k) ∈ (Finder.traverse fs self fuel startpath).1 ->
  exists st, os_stat fs p = Ok st /\ S_ISREG (st_mode st) = true.
Proof.
  intros (Hk & Hcat & _)%traverse_sound.
  eapply categorize_path_matchable; eassumption.
Qed.

Lemma yielded_are_regular_files_witness :
  ("t/d/c.gz", gzip) ∈ (Finder.traverse Fixture.fs Fixture.recursive 3 "t").1
  /\ exists st, os_stat Fixture.fs "t/d/c.gz" = Ok st
                /\ S_ISREG (st_mode st) = true.
Proof.
  assert (("t/d/c.gz", gzip)
            ∈ (Finder.traverse Fixture.fs Fixture.recursive 3 "t").1) as Hin.
  { vm_compute. do 4 right. left. }
  split; [exact Hin|].
  exact (yielded_are_regular_files Fixture.fs Fixture.recursive 3 "t"
           "t/d/c.gz" gzip Hin).
Defined.

(** X4. A file that passes the name checks, whose probe is binary and whose
    first two bytes are not the gzip magic, is classified [binary]; the
    gzip reader is not consulted. *)
Theorem binary_without_magic fs self file_path f buf marker :
  Finder.categorize_file fs self file_path <> Ok skip ->
  Finder.categorize_file fs self file_path <> Ok link ->
  open_rb fs file_path = Ok f ->
  f_read f (Finder.binary_bytes self) = Ok buf ->
  Exists (fun x => ~ in_allow_set x) buf ->
  f_read f 2 = Ok marker ->
  marker <> GZIP_MAGIC ->
  Finder.categorize_file fs self file_path = Ok binary.
Proof.
  intros Hskip Hlink Hopen Hread Hbin Hmarker Hne. past_name_checks.
  rewrite Hopen. cbn [bind]. rewrite (is_binary_file_read_ok _ _ _ Hread).
  apply nontext_nonempty in Hbin. rewrite Hbin. cbn [bind].
  unfold Finder._is_gzipped_text. rewrite Hopen. cbn [bind].
  rewrite Hmarker. cbn [bind]. rewrite bool_decide_eq_false_2 by exact Hne.
  reflexivity.
Qed.

Lemma binary_without_magic_witness :
  open_rb Fixture.fs "t/d/b.bin" = Ok (Fixture.plain_file [x00; x01; x02])
  /\ Finder.categorize_file Fixture.fs Finder.default "t/d/b.bin" = Ok binary.
Proof.
  split; [reflexivity|].
  apply (binary_without_magic Fixture.fs Finder.default "t/d/b.bin"
           (Fixture.plain_file [x00; x01; x02]) [x00; x01; x02] [x00; x01]);
    [ vm_compute; discriminate | vm_compute; discriminate | reflexivity
    | reflexivity | | reflexivity | discriminate ].
  left. apply (bool_decide_eq_false_1 (in_allow_set x00)). reflexivity.
Defined.

(** ** finder.py: extensions *)

Lemma rfind_temp_marker rest :
  pystr.rfind posixpath.extsep rest = -1 ->
  pystr.rfind posixpath.extsep (".~" +:+ rest) = 0.
Proof.
  intros H. change (".~" +:+ rest) with (String "." (String "~" rest)).
  cbn [pystr.rfind]. rewrite H. reflexivity.
Qed.

(** X5. Whatever the configuration, a file whose extension starts with
    [.~] is classified [skip] (unless the symlink check answers first): it
    is never opened. *)
Theorem temp_marker_skipped fs self dir stem rest :
  pystr.rfind posixpath.sep (stem +:+ ".~" +:+ rest) = -1 ->
  pystr.rfind posixpath.extsep rest = -1 ->
  posixpath.has_non_dot stem = true ->
  Finder.skip_symlink_files self
    && os_path_islink fs (dir +:+ stem +:+ ".~" +:+ rest) = false ->
  Finder.categorize_file fs self (dir +:+ stem +:+ ".~" +:+ rest) = Ok skip.
Proof.
  intros Hsep Hdot Hstem Hlink.
  assert (pystr.rfind posixpath.extsep (stem +:+ ".~" +:+ rest)
          = Z.of_nat (String.length stem)) as Hi.
  { rewrite rfind_app, (rfind_temp_marker rest Hdot). cbn. lia. }
  assert ((posixpath.splitext (dir +:+ stem +:+ ".~" +:+ rest)).2
          = ".~" +:+ rest) as Hext.
  { rewrite splitext_app; rewrite ?Hi, ?Nat2Z.id.
    - apply str_drop_app_length.
    - exact Hsep.
    - lia.
    - rewrite str_take_app_length. exact Hstem. }
  unfold Finder.categorize_file, posixpath.normcase. rewrite Hlink, Hext.
  destruct (Finder.skip_hidden_files self && _); [reflexivity|].
  replace (pystr.startswith (".~" +:+ rest) ".~") with true
    by (destruct rest; reflexivity).
  rewrite orb_true_r. reflexivity.
Qed.

Lemma temp_marker_skipped_witness :
  Finder.categorize_file Fixture.fs Finder.default "t/d/a.~lock" = Ok skip.
Proof.
  apply (temp_marker_skipped Fixture.fs Finder.default "t/d/" "a" "lock");
    reflexivity.
Defined.

Lemma dotless_not_single_suffix ext :
  pystr.rfind posixpath.extsep ext = -1 ->
  pystr.rfind posixpath.sep ext = -1 ->
  ~ single_suffix ext.
Proof.
  intros Hdot Hsep. unfold single_suffix.
  change ("foo.bar" +:+ ext) with ("" +:+ ("foo.bar" +:+ ext)).
  assert (pystr.rfind posixpath.extsep ("foo.bar" +:+ ext) = 3) as Hi.
  { rewrite rfind_app, Hdot. reflexivity. }
  rewrite splitext_app; rewrite ?Hi.
  - intros H. apply (f_equal String.length) in H.
    change (pystr.drop (Z.to_nat 3) ("foo.bar" +:+ ext)) with (".bar" +:+ ext) in H.
    rewrite str_length_app in H. cbn in H. lia.
  - rewrite rfind_app, Hsep. reflexivity.
  - lia.
  - reflexivity.
Qed.

(** X6. A configured extension without a dot (and without a separator)
    goes to the suffix list and is matched as a plain suffix of the whole
    path: every file whose path ends with it is classified [skip] (unless
    the symlink check answers first), also a file without any extension. *)
Theorem dotless_extension_matches_suffix fs ssd shd shf sd exts sld slf bb ext
    file_path :
  ext ∈ exts ->
  pystr.rfind posixpath.extsep ext = -1 ->
  pystr.rfind posixpath.sep ext = -1 ->
  pystr.endswith file_path ext = true ->
  slf && os_path_islink fs file_path = false ->
  ext ∈ Finder.skip_exts_endswith (Finder.__init__ ssd shd shf sd exts sld slf bb)
  /\ Finder.categorize_file fs
       (Finder.__init__ ssd shd shf sd exts sld slf bb) file_path = Ok skip.
Proof.
  intros Hin Hdot Hsep Hends Hlink.
  assert (ext ∈ (Finder.partition_exts exts).2) as Hlist.
  { apply partition_exts_spec. split; [exact Hin|].
    apply dotless_not_single_suffix; assumption. }
  split; [exact Hlist|].
  unfold Finder.categorize_file, Finder.__init__, posixpath.normcase.
  cbn [Finder.skip_hidden_files Finder.skip_symlink_files
       Finder.skip_exts_simple Finder.skip_exts_endswith].
  rewrite Hlink.
  assert (existsb (pystr.endswith file_path) (Finder.partition_exts exts).2
          = true) as ->.
  { apply existsb_exists. exists ext. split; [|exact Hends].
    apply list_elem_of_In, Hlist. }
  destruct (shf && _); [reflexivity|].
  destruct (bool_decide _ || _); reflexivity.
Qed.

Lemma dotless_extension_matches_suffix_witness :
  Finder.categorize_file Fixture.fs
    (Finder.__init__ true false false ∅ {[ "py" ]} true true 4096) "t/happy"
  = Ok skip.
Proof.
  apply (dotless_extension_matches_suffix Fixture.fs true false false ∅
           {[ "py" ]} true true 4096 "py" "t/happy");
    [set_solver | reflexivity..].
Defined.

(** ** finder.py: the shape of a walk *)

Section walk_shape.
Context (fs : filesystem) (self : Finder.t).

Lemma for_yield_ext {A} (body body' : A -> walk) l :
  (forall b, body b = body' b) -> for_yield body l = for_yield body' l.
Proof.
  intros H. induction l as [|b l IH]; [reflexivity|].
  cbn [for_yield]. rewrite H, IH. reflexivity.
Qed.

Lemma visit_flat rec start b :
  Finder.skip_sub_dirs self = true ->
  Finder.visit fs self rec start b
  = match Finder.categorize_path fs self (posixpath.join start b) with
    | Raise e => ([], Raised e)
    | Ok k => (if matchable k then [(posixpath.join start b, k)] else [], Done)
    end.
Proof.
  intros Hflat. unfold Finder.visit. rewrite Hflat.
  destruct (Finder.categorize_path fs self (posixpath.join start b)) as [k|e];
    [|reflexivity].
  destruct (matchable k); [reflexivity|].
  destruct (decide (k = directory)); reflexivity.
Qed.

End walk_shape.

(** X7. Without recursion ([skip_sub_dirs], the default) a walk never goes
    below the children of its start path: one unit of fuel gives the whole
    walk, which completes or stops on an exception, and every path yielded is
    the start path or one of its direct children. *)
Theorem flat_walk_stays_at_top fs self fuel startpath :
  Finder.skip_sub_dirs self = true ->
  Finder.traverse fs self (S fuel) startpath = Finder.traverse fs self 1 startpath
  /\ (Finder.traverse fs self (S fuel) startpath).2 <> OutOfFuel
  /\ forall p k,
       (p, k) ∈ (Finder.traverse fs self (S fuel) startpath).1 ->
       p = startpath
       \/ exists names b, os_listdir fs startpath = Ok names /\ b ∈ names
                          /\ p = posixpath.join startpath b.
Proof.
  intros Hflat.
  assert (Finder.traverse fs self (S fuel) startpath
          = Finder.traverse fs self 1 startpath) as Heq.
  { rewrite !traverse_S.
    destruct (Finder.categorize_path fs self startpath) as [k|e]; [|reflexivity].
    destruct (matchable k); [reflexivity|].
    destruct (decide (k = directory)) as [Hk|]; [|reflexivity].
    destruct (os_listdir fs startpath) as [names|e]; [|reflexivity].
    apply for_yield_ext. intros b. rewrite !visit_flat by exact Hflat.
    reflexivity. }
  split; [exact Heq|]. split.
  - rewrite Heq. apply traverse_flat_terminates, Hflat.
  - intros p k Hin. apply traverse_sound in Hin as (_ & _ & [->|Hfrom]);
      [left; reflexivity|].
    destruct Hfrom as (bs & d & names & b & Hroute & Hl & Hb & ->).
    right. exists names, b. inversion Hroute as [Hdir|? ? ? ? ? ? ? Hrec]; subst.
    + auto.
    + congruence.
Qed.

Lemma flat_walk_stays_at_top_witness :
  Finder.traverse Fixture.fs Finder.default 5 "t"
  = Finder.traverse Fixture.fs Finder.default 1 "t"
  /\ (Finder.traverse Fixture.fs Finder.default 1 "t").1
     = [("t/empty", text); ("t/z.txt", text)].
Proof.
  split; [|reflexivity].
  apply (flat_walk_stays_at_top Fixture.fs Finder.default 4 "t"). reflexivity.
Defined.

Section completeness.
Context (fs : filesystem) (self : Finder.t).

Lemma route_end_directory start bs d :
  route fs self start bs d ->
  Finder.categorize_path fs self d = Ok directory.
Proof. destruct 1; assumption. Qed.

Lemma route_nil start d :
  route fs self start [] d ->
  d = start /\ Finder.categorize_path fs self start = Ok directory.
Proof.
  intros H. remember [] as l eqn:Hl.
  destruct H as [Hdir|bs d' names b]; [auto|].
  destruct bs; discriminate.
Qed.

(** The first step of a route. *)
Lemma route_uncons start c bs d :
  route fs self start (c :: bs) d ->
  exists names,
    os_listdir fs start = Ok names /\ c ∈ names
    /\ Finder.skip_sub_dirs self = false
    /\ route fs self (posixpath.join start c) bs d.
Proof.
  intros H. remember (c :: bs) as l eqn:Hl. revert c bs Hl.
  induction H as [Hdir|l d names b Hroute IH Hnames Hb Hrec Hdir];
    intros c bs Hl; [discriminate|].
  destruct l as [|c0 l0].
  - cbn in Hl. injection Hl as <- <-.
    apply route_nil in Hroute as [-> _].
    exists names. repeat split; try assumption. apply route_start, Hdir.
  - cbn in Hl. injection Hl as -> <-.
    destruct (IH c l0 eq_refl) as (names0 & Hn0 & Hc & _ & Hr).
    exists names0. repeat split; try assumption.
    eapply route_child; eassumption.
Qed.

Lemma for_yield_done {A} (body : A -> walk) l b :
  (for_yield body l).2 = Done -> b ∈ l ->
  (body b).2 = Done /\ forall x, x ∈ (body b).1 -> x ∈ (for_yield body l).1.
Proof.
  induction l as [|a l IH]; cbn [for_yield]; [intros _ H; inversion H|].
  destruct (body a) as [out st] eqn:Ha. destruct st; try discriminate.
  destruct (for_yield body l) as [out' st']. cbn [fst snd] in *.
  intros Hst [->|Hin]%elem_of_cons.
  - rewrite Ha. split; [reflexivity|]. intros x Hx. apply elem_of_app. auto.
  - destruct (IH Hst Hin) as [Hb Hsub]. split; [exact Hb|].
    intros x Hx. apply elem_of_app. auto.
Qed.

Lemma traverse_complete fuel start bs d names b k :
  (Finder.traverse fs self fuel start).2 = Done ->
  route fs self start bs d ->
  os_listdir fs d = Ok names -> b ∈ names ->
  Finder.categorize_path fs self (posixpath.join d b) = Ok k ->
  matchable k = true ->
  (posixpath.join d b, k) ∈ (Finder.traverse fs self fuel start).1.
Proof.
  intros Hdone Hroute Hnames Hb Hk Hm. revert start bs Hdone Hroute.
  induction fuel as [|fuel IH]; intros start bs Hdone Hroute; [discriminate|].
  rewrite traverse_S in Hdone |- *.
  rewrite (route_start_directory fs self _ _ _ Hroute) in Hdone |- *.
  cbn [matchable] in Hdone |- *.
  rewrite decide_True in Hdone |- * by reflexivity.
  destruct bs as [|c bs].
  - apply route_nil in Hroute as [-> _].
    rewrite Hnames in Hdone |- *.
    assert (b ∈ sorted names) as Hbs
      by (unfold sorted; rewrite merge_sort_Permutation; exact Hb).
    destruct (for_yield_done _ _ _ Hdone Hbs) as [_ Hsub]. apply Hsub.
    unfold Finder.visit. rewrite Hk, Hm. left.
  - destruct (route_uncons _ _ _ _ Hroute) as (names0 & Hn0 & Hc & Hrec & Hr).
    rewrite Hn0 in Hdone |- *.
    assert (c ∈ sorted names0) as Hcs
      by (unfold sorted; rewrite merge_sort_Permutation; exact Hc).
    destruct (for_yield_done _ _ _ Hdone Hcs) as [Hst Hsub]. apply Hsub.
    unfold Finder.visit in Hst |- *.
    rewrite (route_start_directory fs self _ _ _ Hr) in Hst |- *.
    cbn [matchable] in Hst |- *. rewrite decide_True in Hst |- * by reflexivity.
    rewrite Hrec in Hst |- *. cbn [negb] in Hst |- *.
    eapply IH; eassumption.
Qed.

End completeness.

(** X8. A walk that completes misses nothing: every matchable child of a
    directory that the walk reaches (through children classified
    [directory], sub-directories not being skipped) is yielded with its
    classification. *)
Theorem finished_walk_is_complete fs self fuel startpath bs d names b k :
  (Finder.traverse fs self fuel startpath).2 = Done ->
  route fs self startpath bs d ->
  os_listdir fs d = Ok names -> b ∈ names ->
  Finder.categorize_path fs self (posixpath.join d b) = Ok k ->
  matchable k = true ->
  (posixpath.join d b, k) ∈ (Finder.traverse fs self fuel startpath).1.
Proof. apply traverse_complete. Qed.

Lemma finished_walk_is_complete_witness :
  route Fixture.fs Fixture.recursive "t" [".h"; "sub"] "t/.h/sub"
  /\ ("t/.h/sub/a", text)
       ∈ (Finder.traverse Fixture.fs Fixture.recursive 3 "t").1.
Proof.
  assert (route Fixture.fs Fixture.recursive "t" [".h"; "sub"] "t/.h/sub")
    as Hroute.
  { apply (route_child Fixture.fs Fixture.recursive "t" [".h"] "t/.h"
             ["sub"; "k.txt"] "sub"); [|reflexivity|left|reflexivity..].
    apply (route_child Fixture.fs Fixture.recursive "t" [] "t"
             ["z.txt"; "d"; ".h"; "e"; "empty"] ".h");
      [|reflexivity|do 2 right; left|reflexivity..].
    apply route_start. reflexivity. }
  split; [exact Hroute|].
  apply (finished_walk_is_complete Fixture.fs Fixture.recursive 3 "t"
           [".h"; "sub"] "t/.h/sub" ["a"] "a" text);
    [reflexivity | exact Hroute | reflexivity | left | reflexivity..].
Defined.

Section once.
Context (fs : filesystem) (self : Finder.t).
Hypothesis Hwf : wf_names fs.

(** What the loop body yields for the child [b] lies at or below [b]. *)
Lemma visit_chain fuel start b p k :
  valid_name b ->
  (p, k) ∈ (Finder.visit fs self (Finder.traverse fs self fuel) start b).1 ->
  exists bs, Forall valid_name bs /\ p = chain start (b :: bs).
Proof.
  intros Hb [(k' & [= -> ->] & _)|(_ & _ & Hin)]%visit_elem_of.
  { exists []. split; [constructor|reflexivity]. }
  apply traverse_sound in Hin
    as (_ & _ & [->|(bs & d & names & c & Hroute & Hl & Hc & ->)]).
  { exists []. split; [constructor|reflexivity]. }
  apply (route_chain fs self _ _ _ Hwf) in Hroute as (-> & Hbs & _).
  exists (bs ++ [c]). split.
  - apply Forall_app. split; [exact Hbs|].
    constructor; [eapply Hwf; eassumption|constructor].
  - cbn [chain foldl]. fold (chain (posixpath.join start b) (bs ++ [c])).
    rewrite chain_snoc. reflexivity.
Qed.

Lemma for_yield_NoDup (body : string -> walk) l :
  NoDup l ->
  (forall b, b ∈ l -> NoDup (body b).1.*1) ->
  (forall b b' p, b ∈ l -> b' ∈ l ->
     p ∈ (body b).1.*1 -> p ∈ (body b').1.*1 -> b = b') ->
  NoDup (for_yield body l).1.*1.
Proof.
  induction l as [|a l IH]; intros Hl Hbody Hdisj; [constructor|].
  apply NoDup_cons in Hl as [Ha Hl]. cbn [for_yield].
  pose proof (Hbody a ltac:(left)) as Hout.
  destruct (body a) as [out st] eqn:Hba. cbn [fst] in Hout.
  destruct st; [|exact Hout..].
  assert (NoDup (for_yield body l).1.*1) as Hrest.
  { apply IH; [exact Hl| |].
    - intros b Hb. apply Hbody. right. exact Hb.
    - intros b b' p Hb Hb'. apply Hdisj; right; assumption. }
  assert (forall p, p ∈ out.*1 -> p ∉ (for_yield body l).1.*1) as Hsep.
  { intros p Hp [[q k] [Hq Hin]]%list_elem_of_fmap. cbn in Hq. subst q.
    apply for_yield_elem_of in Hin as (b & Hb & Hin).
    assert (a = b) as ->.
    { apply (Hdisj a b p); [left|right; exact Hb| |].
      - rewrite Hba. exact Hp.
      - apply list_elem_of_fmap. exists (p, k). split; [reflexivity|exact Hin]. }
    contradiction. }
  destruct (for_yield body l) as [out' st']. cbn [fst] in *.
  rewrite fmap_app. apply NoDup_app. auto.
Qed.

Lemma traverse_NoDup fuel start :
  (forall d names, os_listdir fs d = Ok names -> NoDup names) ->
  NoDup (Finder.traverse fs self fuel start).1.*1.
Proof.
  intros Hnd. revert start. induction fuel as [|fuel IH]; intros start;
    [constructor|].
  rewrite traverse_S.
  destruct (Finder.categorize_path fs self start) as [k|e]; [|constructor].
  destruct (matchable k); [apply NoDup_singleton|].
  destruct (decide (k = directory)) as [Hk|]; [|constructor].
  destruct (os_listdir fs start) as [names|e] eqn:Hnames;
    [|destruct (is_OSError e); constructor].
  assert (forall b, b ∈ sorted names -> valid_name b) as Hvalid.
  { intros b Hb. unfold sorted in Hb. rewrite merge_sort_Permutation in Hb.
    eapply Hwf; eassumption. }
  apply for_yield_NoDup.
  - unfold sorted. rewrite merge_sort_Permutation. eapply Hnd, Hnames.
  - intros b _. unfold Finder.visit.
    destruct (Finder.categorize_path fs self (posixpath.join start b))
      as [k'|e]; [|constructor].
    destruct (matchable k'); [apply NoDup_singleton|].
    destruct (decide (k' = directory)) as [Hk'|]; [|constructor].
    destruct (negb (Finder.skip_sub_dirs self)); [apply IH|constructor].
  - intros b b' p Hb Hb' [[q k1] [Hq Hin]]%list_elem_of_fmap
      [[q' k2] [Hq' Hin']]%list_elem_of_fmap.
    cbn in Hq, Hq'. subst q q'.
    apply visit_chain in Hin as (bs & Hbs & Hp); [|auto].
    apply visit_chain in Hin' as (bs' & Hbs' & Hp'); [|auto].
    rewrite Hp in Hp'. apply chain_inj in Hp'.
    + congruence.
    + constructor; auto.
    + constructor; auto.
Qed.

End once.

Lemma mkfs_listings (P : string -> list string -> Prop) tbl :
  Forall (fun e : Fixture.entry =>
            match e with
            | (q, (_, Fixture.Dir children)) => P q children
            | _ => True
            end) tbl ->
  forall d names, os_listdir (Fixture.mkfs tbl) d = Ok names -> P d names.
Proof.
  intros Hall d names. cbn [os_listdir Fixture.mkfs].
  induction Hall as [|[q [l n]] tbl Hq _ IH]; cbn [Fixture.find_entry];
    [discriminate|].
  destruct (String.eqb_spec d q) as [->|]; [|exact IH].
  destruct n as [raw unzipped|children]; [discriminate|].
  intros [= <-]. exact Hq.
Qed.

Lemma fixture_listings_NoDup d names :
  os_listdir Fixture.fs d = Ok names -> NoDup names.
Proof.
  apply (mkfs_listings (fun _ => NoDup)). unfold Fixture.tree.
  repeat (apply List.Forall_cons;
          [first [exact I | apply (bool_decide_unpack _); vm_compute; exact I]|]).
  apply List.Forall_nil.
Qed.

(** X9. When directory listings hold distinct entry names, no path is
    yielded twice by a walk. *)
Theorem each_path_yielded_once fs self fuel startpath :
  wf_names fs ->
  (forall d names, os_listdir fs d = Ok names -> NoDup names) ->
  NoDup (Finder.traverse fs self fuel startpath).1.*1.
Proof. intros Hwf Hnd. apply traverse_NoDup; assumption. Qed.

Lemma each_path_yielded_once_witness :
  NoDup (Finder.traverse Fixture.fs Fixture.recursive 3 "t").1.*1.
Proof.
  apply (each_path_yielded_once Fixture.fs Fixture.recursive 3 "t").
  - exact fixture_wf_names.
  - exact fixture_listings_NoDup.
Defined.

(** ** finder.py: fuel and termination *)

Lemma traverse_fuel_le fs self n m start :
  (n <= m)%nat ->
  (Finder.traverse fs self n start).2 <> OutOfFuel ->
  Finder.traverse fs self m start = Finder.traverse fs self n start.
Proof.
  intros Hle Hn. induction Hle as [|m Hle IH]; [reflexivity|].
  rewrite traverse_fuel_mono; [exact IH|]. rewrite IH. exact Hn.
Qed.

(** X10. On a directory tree of finite depth (measured by [rank], which
    decreases from a directory to each child classified [directory]) a walk
    terminates, and every amount of fuel above the rank of the start path
    gives the same walk: the result does not depend on the fuel. *)
Theorem walk_completes_on_finite_depth fs self (rank : string -> nat) fuel
    startpath :
  (forall d names b,
     Finder.categorize_path fs self d = Ok directory ->
     os_listdir fs d = Ok names -> b ∈ names ->
     Finder.categorize_path fs self (posixpath.join d b) = Ok directory ->
     (rank (posixpath.join d b) < rank d)%nat) ->
  (rank startpath < fuel)%nat ->
  (Finder.traverse fs self fuel startpath).2 <> OutOfFuel
  /\ Finder.traverse fs self fuel startpath
     = Finder.traverse fs self (S (rank startpath)) startpath.
Proof.
  intros Hrank Hfuel.
  pose proof (traverse_terminates fs self rank Hrank) as Hterm.
  split; [apply Hterm, Hfuel|].
  apply traverse_fuel_le; [lia|]. apply Hterm. lia.
Qed.

Lemma fixture_listings_short d names :
  os_listdir Fixture.fs d = Ok names -> (String.length d <= 8)%nat.
Proof.
  apply (mkfs_listings (fun d _ => (String.length d <= 8)%nat)).
  unfold Fixture.tree.
  repeat (apply List.Forall_cons; [first [exact I | cbn; lia]|]).
  apply List.Forall_nil.
Qed.

Lemma walk_completes_on_finite_depth_witness :
  (Finder.traverse Fixture.fs Fixture.recursive 25 "t").2 <> OutOfFuel
  /\ Finder.traverse Fixture.fs Fixture.recursive 25 "t"
     = Finder.traverse Fixture.fs Fixture.recursive
         (S (20 - String.length "t")) "t".
Proof.
  apply (walk_completes_on_finite_depth Fixture.fs Fixture.recursive
           (fun p => 20 - String.length p)%nat 25 "t").
  - intros d names b _ Hl Hb _.
    pose proof (fixture_listings_short d names Hl).
    pose proof (length_join d b (fixture_wf_names d names b Hl Hb)). lia.
  - cbn. lia.
Defined.

(** X11. A directory whose listing fails with an [OSError] is passed over
    in silence: as a start path it yields nothing and the walk completes;
    as a child it contributes nothing and the loop goes on with the next
    sibling. *)
Theorem unreadable_directory_passed_over fs self fuel d e :
  Finder.categorize_path fs self d = Ok directory ->
  os_listdir fs d = Raise e ->
  is_OSError e = true ->
  Finder.traverse fs self (S fuel) d = ([], Done)
  /\ forall start b rest,
       d = posixpath.join start b ->
       Finder.skip_sub_dirs self = false ->
       for_yield (Finder.visit fs self (Finder.traverse fs self (S fuel)) start)
                 (b :: rest)
       = for_yield (Finder.visit fs self (Finder.traverse fs self (S fuel)) start)
                   rest.
Proof.
  intros Hdir Hlist Hos.
  assert (Finder.traverse fs self (S fuel) d = ([], Done)) as Hd.
  { rewrite traverse_S, Hdir. cbn [matchable].
    rewrite decide_True by reflexivity. rewrite Hlist, Hos. reflexivity. }
  split; [exact Hd|]. intros start b rest -> Hrec. cbn [for_yield].
  unfold Finder.visit at 1. rewrite Hdir. cbn [matchable].
  rewrite decide_True by reflexivity. rewrite Hrec. cbn [negb]. rewrite Hd.
  destruct (for_yield _ rest) as [out st]. reflexivity.
Qed.

Lemma unreadable_directory_passed_over_witness :
  Finder.traverse
    {| os_stat := fun _ => Ok {| st_mode := 0x41ED; st_size := 0 |};
       os_path_islink := fun _ => false;
       os_listdir := fun _ => Raise OSError;
       open_rb := fun _ => Raise OSError;
       gzip_open := fun _ => Raise OSError;
       gunzip := fun _ => Raise OSError |} Finder.default 1 "d"
  = ([], Done).
Proof.
  apply (unreadable_directory_passed_over _ Finder.default 0 "d" OSError);
    reflexivity.
Defined.

(** ** grepper.py *)

(** X12. In content mode, for a file that is not empty, [do_grep] raises
    [UnboundLocalError] whenever the file object is not obtained: for a
    kind without opener (the [KeyError] is replaced) and when the opener
    itself raises (its error is replaced), because the [finally] clause
    closes a local that was never bound. *)
Theorem content_open_failure_masked fs self filename k st :
  os_stat fs filename = Ok st ->
  st_size st <> 0 ->
  Grepper.search_file_contents self = true ->
  (k <> text /\ k <> gzip)
  \/ (k = text /\ exists e, open_rb fs filename = Raise e)
  \/ (k = gzip /\ exists e, gzip_open fs filename = Raise e) ->
  Grepper.do_grep fs self filename k = Raise UnboundLocalError.
Proof.
  intros Hstat Hsize Hmode Hcase. unfold Grepper.do_grep.
  rewrite Hstat. cbn [bind].
  replace (st_size st =? 0) with false by (symmetry; apply Z.eqb_neq, Hsize).
  cbn [negb]. rewrite Hmode.
  destruct Hcase as [[Ht Hg]|[[-> [e He]]|[-> [e He]]]].
  - destruct k; try reflexivity; contradiction.
  - cbn [Grepper._openers bind]. rewrite He. reflexivity.
  - cbn [Grepper._openers bind]. rewrite He. reflexivity.
Qed.

Lemma content_open_failure_masked_witness :
  Grepper.do_grep Fixture.fs
    {| Grepper.regex := fun _ => true;
       Grepper.regex_m := fun _ => true;
       Grepper.search_file_contents := true |} "t/d/b.bin" binary
  = Raise UnboundLocalError.
Proof.
  apply (content_open_failure_masked Fixture.fs _ "t/d/b.bin" binary
           {| st_mode := 0x81A4; st_size := 3 |});
    [reflexivity | discriminate | reflexivity |].
  left. split; discriminate.
Defined.

(** ** detective.py *)

Example fixture_main :
  detective.main Fixture.fs CliFixture.re CliFixture.relpath 5
    CliFixture.name_args = (["d/a.txt"; "z.txt"], Done)
  /\ detective.main Fixture.fs CliFixture.re CliFixture.relpath 5
       CliFixture.content_args = ([], Done)
  /\ Finder.skip_dirs (detective.get_file_finder CliFixture.name_args)
     = {[ ".h"; "e" ]}.
Proof. repeat split; vm_compute; reflexivity. Qed.

Section split.
Variable sep : ascii.

Lemma str_split_not_nil s : str_split sep s <> [].
Proof.
  destruct s as [|a s]; cbn [str_split]; [discriminate|].
  destruct (Ascii.eqb a sep); [discriminate|].
  destruct (str_split sep s); discriminate.
Qed.

(** Joining the pieces with the separator gives the string back. *)
Lemma str_split_concat s :
  String.concat (String sep EmptyString) (str_split sep s) = s.
Proof.
  induction s as [|a s IH]; [reflexivity|]. cbn [str_split].
  pose proof (str_split_not_nil s) as Hne.
  destruct (Ascii.eqb_spec a sep) as [->|Hneq].
  - destruct (str_split sep s) as [|x xs]; [contradiction|].
    cbn [String.concat] in *. rewrite IH. reflexivity.
  - destruct (str_split sep s) as [|x xs]; [contradiction|].
    destruct xs as [|y ys]; cbn [String.concat] in *; rewrite <- IH; reflexivity.
Qed.

Lemma rfind_cons_none a s :
  pystr.rfind sep (String a s) = -1 <-> a <> sep /\ pystr.rfind sep s = -1.
Proof.
  cbn [pystr.rfind]. pose proof (rfind_bounds sep s).
  destruct (Z.leb_spec 0 (pystr.rfind sep s)).
  - split; [lia | intros [_ ?]; lia].
  - destruct (Ascii.eqb_spec a sep).
    + split; [discriminate | intros [? _]; contradiction].
    + split; [intros _; split; [assumption|lia] | reflexivity].
Qed.

Lemma str_split_pieces s :
  Forall (fun x => pystr.rfind sep x = -1) (str_split sep s).
Proof.
  induction s as [|a s IH]; [repeat constructor|]. cbn [str_split].
  destruct (Ascii.eqb_spec a sep) as [->|Hneq].
  - constructor; [reflexivity|exact IH].
  - destruct (str_split sep s) as [|x xs]; [repeat constructor|].
    + apply rfind_cons_none. auto.
    + apply Forall_cons in IH as [Hx Hxs]. constructor; [|exact Hxs].
      apply rfind_cons_none. auto.
Qed.

Lemma str_split_no_sep x :
  pystr.rfind sep x = -1 -> str_split sep x = [x].
Proof.
  induction x as [|a x IH]; [reflexivity|].
  intros [Ha Hx]%rfind_cons_none. cbn [str_split].
  destruct (Ascii.eqb_spec a sep); [contradiction|]. rewrite (IH Hx). reflexivity.
Qed.

Lemma str_split_app x s :
  pystr.rfind sep x = -1 ->
  str_split sep (x +:+ String sep s) = x :: str_split sep s.
Proof.
  induction x as [|a x IH].
  - intros _. change ("" +:+ String sep s) with (String sep s).
    cbn [str_split]. rewrite Ascii.eqb_refl. reflexivity.
  - intros [Ha Hx]%rfind_cons_none. rewrite str_app_cons. cbn [str_split].
    destruct (Ascii.eqb_spec a sep); [contradiction|]. rewrite (IH Hx).
    reflexivity.
Qed.

Lemma str_split_of_concat names :
  names <> [] ->
  Forall (fun x => pystr.rfind sep x = -1) names ->
  str_split sep (String.concat (String sep EmptyString) names) = names.
Proof.
  induction names as [|x names IH]; [contradiction|]. intros _ Hall.
  apply Forall_cons in Hall as [Hx Hall].
  destruct names as [|y names].
  - cbn [String.concat]. apply str_split_no_sep, Hx.
  - change (String.concat (String sep "") (x :: y :: names))
      with (x +:+ String sep (String.concat (String sep "") (y :: names))).
    rewrite str_split_app by exact Hx. rewrite IH; [reflexivity|discriminate|].
    exact Hall.
Qed.

End split.

Lemma filter_all {A} (f : A -> bool) l :
  Forall (fun x => f x = true) l -> List.filter f l = l.
Proof.
  induction 1 as [|x l Hx _ IH]; [reflexivity|].
  cbn [List.filter]. rewrite Hx, IH. reflexivity.
Qed.

Lemma comma_set_elem_of (s x : string) :
  x ∈ detective.comma_set s <-> x <> "" /\ x ∈ str_split "," s.
Proof.
  unfold detective.comma_set. rewrite elem_of_list_to_set, list_elem_of_In.
  rewrite filter_In, <- list_elem_of_In.
  destruct (String.eqb_spec x ""); cbn; intuition congruence.
Qed.

(** X13. The comma-separated options are parsed into sets of names: a name
    in the skip sets of the finder is never empty and holds no comma, and an
    option written as names joined by commas gives exactly the set of these
    names; the other options pass as they are, [follow_symlinks] turning
    both symlink checks off and [recurse_dirs] turning recursion on. *)
Theorem comma_options_parsed a :
  (forall x, x ∈ Finder.skip_dirs (detective.get_file_finder a) ->
     x <> "" /\ pystr.rfind "," x = -1)
  /\ (forall dirs exts,
        Forall (fun x => x <> "" /\ pystr.rfind "," x = -1) dirs ->
        Forall (fun x => x <> "" /\ pystr.rfind "," x = -1) exts ->
        detective.skip_dirs a = String.concat "," dirs ->
        detective.skip_exts a = String.concat "," exts ->
        detective.get_file_finder a
        = Finder.__init__ (negb (detective.recurse_dirs a))
            (detective.skip_hidden_dirs a) (detective.skip_hidden_files a)
            (list_to_set dirs) (list_to_set exts)
            (negb (detective.follow_symlinks a))
            (negb (detective.follow_symlinks a)) 4096).
Proof.
  assert (forall names,
    Forall (fun x => x <> "" /\ pystr.rfind "," x = -1) names ->
    detective.comma_set (String.concat "," names) = list_to_set names) as Hset.
  { intros names Hall. unfold detective.comma_set. f_equal.
    destruct names as [|n0 names]; [reflexivity|].
    rewrite str_split_of_concat; [|discriminate|].
    - apply filter_all. eapply Forall_impl; [exact Hall|].
      intros x [Hne _]. destruct (String.eqb_spec x ""); [contradiction|reflexivity].
    - eapply Forall_impl; [exact Hall|]. intros x [_ Hx]. exact Hx. }
  split.
  - intros x Hx. cbn in Hx. apply comma_set_elem_of in Hx as [Hne Hin].
    split; [exact Hne|].
    pose proof (str_split_pieces "," (detective.skip_dirs a)) as Hall.
    rewrite Forall_forall in Hall. apply Hall, Hin.
  - intros dirs exts Hd He Hsd Hse. unfold detective.get_file_finder.
    rewrite Hsd, Hse, !Hset by assumption. reflexivity.
Qed.

Lemma comma_options_parsed_witness :
  detective.get_file_finder
    {| detective.search_contents := false;
       detective.recurse_dirs := true;
       detective.skip_hidden_files := false;
       detective.skip_hidden_dirs := true;
       detective.skip_dirs := "build,.git";
       detective.skip_exts := ".gz,.tar.gz";
       detective.follow_symlinks := true;
       detective.re_flags := [];
       detective.search_dir := "t";
       detective.regex := "x" |}
  = Finder.__init__ false true false (list_to_set ["build"; ".git"])
      (list_to_set [".gz"; ".tar.gz"]) false false 4096.
Proof.
  apply (comma_options_parsed
           {| detective.search_contents := false;
              detective.recurse_dirs := true;
              detective.skip_hidden_files := false;
              detective.skip_hidden_dirs := true;
              detective.skip_dirs := "build,.git";
              detective.skip_exts := ".gz,.tar.gz";
              detective.follow_symlinks := true;
              detective.re_flags := [];
              detective.search_dir := "t";
              detective.regex := "x" |});
    try reflexivity;
    repeat (apply List.Forall_cons; [split; [discriminate|reflexivity]|]);
    apply List.Forall_nil.
Defined.

Lemma try_except_ok {A} (body : result A) C (a k : A) :
  try_except body C (Ok a) = Ok k -> body = Ok k \/ k = a.
Proof.
  destruct body as [x|e]; cbn [try_except]; [auto|].
  destruct (C e); [|discriminate]. intros [= ->]. auto.
Qed.

Lemma categorize_file_link fs self path :
  Finder.categorize_file fs self path = Ok link ->
  os_path_islink fs path = true /\ Finder.skip_symlink_files self = true.
Proof.
  unfold Finder.categorize_file.
  destruct (Finder.skip_hidden_files self && _); [discriminate|].
  destruct (Finder.skip_symlink_files self) eqn:Hflag,
           (os_path_islink fs path) eqn:Hlink; cbn [andb]; [auto|..].
  all: destruct (bool_decide _ || _); [discriminate|].
  all: destruct (existsb _ _); [discriminate|].
  all: intros [H|H]%try_except_ok; [exfalso|discriminate].
  all: destruct (open_rb fs path) as [f|e]; cbn [bind] in H; [|discriminate].
  all: destruct (Finder._is_binary_file self f) as [[]|e]; cbn [bind] in H;
    try discriminate.
  all: destruct (Finder._is_gzipped_text fs self path) as [[]|e];
    cbn [bind] in H; discriminate.
Qed.

Lemma categorize_path_link fs self path :
  Finder.categorize_path fs self path = Ok link ->
  os_path_islink fs path = true
  /\ (Finder.skip_symlink_files self = true
      \/ Finder.skip_symlink_dirs self = true).
Proof.
  unfold Finder.categorize_path. intros [H|H]%try_except_ok; [|discriminate].
  destruct (os_stat fs path) as [st|e]; cbn [bind] in H; [|discriminate].
  destruct (S_ISREG (st_mode st)).
  - apply categorize_file_link in H. tauto.
  - destruct (S_ISDIR (st_mode st)); [|discriminate].
    injection H as H. unfold Finder.categorize_directory in H.
    destruct (Finder.skip_hidden_dirs self && _ && _); [discriminate|].
    destruct (Finder.skip_symlink_dirs self) eqn:Hflag,
             (os_path_islink fs path) eqn:Hlink; cbn [andb] in H; [auto|..].
    all: destruct (bool_decide _); discriminate.
Qed.

(** X14. With [follow_symlinks] no path is ever classified [link]; without
    it only paths that are symbolic links are. *)
Theorem follow_symlinks_never_link fs a path :
  (detective.follow_symlinks a = true ->
   Finder.categorize_path fs (detective.get_file_finder a) path <> Ok link)
  /\ (Finder.categorize_path fs (detective.get_file_finder a) path = Ok link ->
      os_path_islink fs path = true).
Proof.
  split.
  - intros Hf [_ Hflag]%categorize_path_link. cbn in Hflag. rewrite Hf in Hflag.
    destruct Hflag; discriminate.
  - intros [Hl _]%categorize_path_link. exact Hl.
Qed.

Lemma follow_symlinks_never_link_witness :
  Finder.categorize_path Fixture.fs
    (detective.get_file_finder CliFixture.name_args) ".cache" = Ok link
  /\ Finder.categorize_path Fixture.fs
       (detective.get_file_finder CliFixture.follow_args) ".cache"
     = Ok directory
  /\ Finder.categorize_path Fixture.fs
       (detective.get_file_finder CliFixture.follow_args) ".cache" <> Ok link.
Proof.
  split; [reflexivity|]. split; [reflexivity|].
  apply (follow_symlinks_never_link Fixture.fs CliFixture.follow_args ".cache").
  reflexivity.
Defined.

Lemma filter_true {A} (l : list A) : List.filter (fun _ => true) l = l.
Proof. induction l as [|x l IH]; [reflexivity|]. cbn. rewrite IH. reflexivity. Qed.

(** X15. When the search root exists, [find_files] stops as the traversal
    does; in name mode it yields exactly the pairs of the traversal, in
    content mode exactly those of kind [text] or [gzip], in the same order,
    so that every pair it hands to the matcher has an opener. *)
Theorem find_files_filters_by_mode fs fuel a :
  os_path_exists fs (detective.search_dir a) = Ok true ->
  (detective.find_files fs fuel a).2
  = (Finder.traverse fs (detective.get_file_finder a) fuel
       (detective.search_dir a)).2
  /\ (detective.search_contents a = false ->
      (detective.find_files fs fuel a).1
      = (Finder.traverse fs (detective.get_file_finder a) fuel
           (detective.search_dir a)).1)
  /\ (detective.search_contents a = true ->
      (detective.find_files fs fuel a).1
      = List.filter (fun x => bool_decide (x.2 = text \/ x.2 = gzip))
          (Finder.traverse fs (detective.get_file_finder a) fuel
             (detective.search_dir a)).1
      /\ forall p k, (p, k) ∈ (detective.find_files fs fuel a).1 ->
           exists opener, Grepper._openers fs k = Ok opener).
Proof.
  intros Hroot. unfold detective.find_files. rewrite Hroot.
  destruct (Finder.traverse fs (detective.get_file_finder a) fuel
              (detective.search_dir a)) as [out st].
  cbn [fst snd]. split; [reflexivity|]. split.
  - intros ->. cbn [negb]. rewrite <- (filter_true out) at 2.
    apply filter_ext. intros [p k]. reflexivity.
  - intros ->. cbn [negb].
    assert (List.filter
              (fun '(_, k) => bool_decide (k = text \/ k = gzip)) out
            = List.filter (fun x => bool_decide (x.2 = text \/ x.2 = gzip)) out)
      as -> by (apply filter_ext; intros [p k]; reflexivity).
    split; [reflexivity|].
    intros p k [_ Hk]%list_elem_of_In%filter_In. cbn [snd] in Hk.
    apply bool_decide_eq_true in Hk as [->| ->]; cbn; eauto.
Qed.

Lemma find_files_filters_by_mode_witness :
  os_path_exists Fixture.fs "t" = Ok true
  /\ (detective.find_files Fixture.fs 5 CliFixture.content_args).1
     = [("t/.h/k.txt", text); ("t/.h/sub/a", text); ("t/d/a.txt", text);
        ("t/d/c.gz", gzip); ("t/empty", text); ("t/z.txt", text)]
  /\ (detective.find_files Fixture.fs 5 CliFixture.content_args).2
     = (Finder.traverse Fixture.fs
          (detective.get_file_finder CliFixture.content_args) 5 "t").2.
Proof.
  split; [reflexivity|]. split; [reflexivity|].
  apply (find_files_filters_by_mode Fixture.fs 5 CliFixture.content_args).
  reflexivity.
Defined.

(** X16. A search root that cannot be stat'ed makes [find_files] raise
    [IOError] before anything is yielded, whereas [traverse] on the same
    path completes in silence with nothing yielded. *)
Theorem missing_root_reported fs fuel a e :
  os_stat fs (detective.search_dir a) = Raise e ->
  is_OSError e = true ->
  detective.find_files fs fuel a = ([], Raised OSError)
  /\ Finder.traverse fs (detective.get_file_finder a) (S fuel)
       (detective.search_dir a) = ([], Done).
Proof.
  intros Hstat Hos. split.
  - unfold detective.find_files, os_path_exists. rewrite Hstat.
    cbn [bind try_except]. destruct e; try discriminate; reflexivity.
  - rewrite traverse_S. unfold Finder.categorize_path. rewrite Hstat.
    cbn [bind try_except]. rewrite Hos. reflexivity.
Qed.

Lemma missing_root_reported_witness :
  detective.find_files Fixture.fs 5 CliFixture.follow_args = ([], Raised OSError)
  /\ Finder.traverse Fixture.fs
       (detective.get_file_finder CliFixture.follow_args) 5 "." = ([], Done).
Proof.
  apply (missing_root_reported Fixture.fs 4 CliFixture.follow_args OSError);
    reflexivity.
Defined.





Lemma grep_loop_ext fs relpath g g' root files st :
  (forall p k, Grepper.do_grep fs g p k = Grepper.do_grep fs g' p k) ->
  detective.grep_loop fs relpath g root files st
  = detective.grep_loop fs relpath g' root files st.
Proof.
  intros H. induction files as [|[p k] files IH]; [reflexivity|].
  cbn [detective.grep_loop]. rewrite H, IH. reflexivity.
Qed.

(** X18. In content mode the flags of the pattern have no effect: the
    contents are searched with the pattern recompiled under
    [DOTALL | MULTILINE] alone, so two command lines that differ only in
    their flags (such as the case-insensitive one) print the same lines. *)
Theorem content_search_ignores_flags fs re relpath fuel a flags :
  detective.search_contents a = true ->
  re_compile re (detective.regex a) (foldl N.lor 0%N (detective.re_flags a))
    <> None ->
  re_compile re (detective.regex a) (foldl N.lor 0%N flags) <> None ->
  detective.main fs re relpath fuel (with_re_flags a flags)
  = detective.main fs re relpath fuel a.
Proof.
  intros Hmode Hc Hc'. unfold detective.main, detective.get_regex.
  cbn [with_re_flags detective.regex detective.re_flags
       detective.search_contents detective.search_dir].
  destruct (re_compile re (detective.regex a)
              (foldl N.lor 0%N (detective.re_flags a))) as [s|];
    [|contradiction].
  destruct (re_compile re (detective.regex a) (foldl N.lor 0%N flags)) as [s'|];
    [|contradiction].
  cbn [bind]. unfold Grepper__init__. cbn [pattern search].
  destruct (re_compile_bytes re (utf8 (detective.regex a))
              (N.lor re_DOTALL re_MULTILINE)) as [m|]; [|reflexivity].
  change (detective.find_files fs fuel (with_re_flags a flags))
    with (detective.find_files fs fuel a).
  destruct (detective.find_files fs fuel a) as [files st].
  apply grep_loop_ext. intros p k. unfold Grepper.do_grep.
  cbn [Grepper.search_file_contents]. rewrite Hmode. reflexivity.
Qed.

Lemma content_search_ignores_flags_witness :
  detective.main Fixture.fs CliFixture.re CliFixture.relpath 5
    (with_re_flags CliFixture.content_args [])
  = detective.main Fixture.fs CliFixture.re CliFixture.relpath 5
      CliFixture.content_args.
Proof.
  apply (content_search_ignores_flags Fixture.fs CliFixture.re
           CliFixture.relpath 5 CliFixture.content_args []);
    [reflexivity | discriminate | discriminate].
Defined.
